(** * bot.py: the conversation workflow of the YouTube downloader bot

    A shallow embedding of [src/bot.py]: the handlers [start],
    [receive_url], [select_video], [download_video], [download_audio] and
    [cancel], the [ConversationHandler] table built in [main], and the
    helpers of Python, pytube and python-telegram-bot the handlers call. *)

From Stdlib Require Import ZArith QArith Ascii String List Bool Lia Sorted Permutation.
From stdpp Require Import base option list strings gmap.

Local Open Scope string_scope.
#[local] Set Warnings "-clear-no-such-hyp".

(** ** Python string operations used by the handlers *)

Module PyStr.

(** ['_' in command] for a one-character needle. *)
Fixpoint contains_char (c : ascii) (s : string) : bool :=
  match s with
  | EmptyString => false
  | String a s' => if Ascii.eqb a c then true else contains_char c s'
  end.

(** [s.split(sep)] for a one-character separator, read left to right:
    [cur] holds the characters of the segment being read, reversed. *)
Fixpoint split_aux (sep : ascii) (cur : list ascii) (s : string) : list string :=
  match s with
  | EmptyString => [string_of_list_ascii (rev cur)]
  | String a s' =>
      if Ascii.eqb a sep
      then string_of_list_ascii (rev cur) :: split_aux sep [] s'
      else split_aux sep (a :: cur) s'
  end.

Definition split (sep : ascii) (s : string) : list string := split_aux sep [] s.

(** [xs[-1]]: the last element; [IndexError] (here [None]) on the empty list. *)
Definition last_item {A} (xs : list A) : option A := last xs.

(** [s.startswith(old)] *)
Fixpoint startswith (old s : string) : bool :=
  match old, s with
  | EmptyString, _ => true
  | String _ _, EmptyString => false
  | String a old', String b s' => Ascii.eqb a b && startswith old' s'
  end.

(** [s.replace(old, new)] for a non-empty [old]: every occurrence, scanning
    left to right without overlap.  [skip] counts the characters of a
    matched occurrence still to be dropped. *)
Fixpoint replace_aux (old new : string) (skip : nat) (s : string) : string :=
  match s with
  | EmptyString => EmptyString
  | String a s' =>
      match skip with
      | S k => replace_aux old new k s'
      | O =>
          if startswith old s
          then new +:+ replace_aux old new (String.length old - 1) s'
          else String a (replace_aux old new 0 s')
      end
  end.

Definition replace (old new : string) (s : string) : string :=
  replace_aux old new 0 s.

(** [old in s] for a string needle. *)
Fixpoint contains (old : string) (s : string) : bool :=
  match s with
  | EmptyString => startswith old EmptyString
  | String _ s' => startswith old s || contains old s'
  end.

(** [str.isdigit] on one ASCII character. *)
Definition isdigit (a : ascii) : bool :=
  let n := nat_of_ascii a in (48 <=? n)%nat && (n <=? 57)%nat.

(** [int(ds)] for a string [ds] of ASCII digits, most significant first. *)
Definition int_of_digits (ds : list ascii) : N :=
  fold_left (fun acc a => (10 * acc + (N_of_ascii a - 48))%N) ds 0%N.

End PyStr.

(** ** Data model *)

(** [URL, FORMAT, RESOLUTION = range(3)] *)
Inductive conv_state := URL | FORMAT | RESOLUTION.

(** What a handler returns: one of the three states or
    [ConversationHandler.END]. *)
Inductive handler_result := Next (s : conv_state) | END.

(** The part of a pytube [Stream] the handlers and the queries read. *)
Record Stream := {
  resolution : option string;   (* [stream.resolution], [None] for audio *)
  fps : Z;                      (* [stream.fps] *)
  filesize : Z;                 (* [stream.filesize], in bytes *)
  is_progressive : bool;        (* audio and video in one container *)
  subtype : string;             (* the file extension, "mp4" or "webm" *)
  only_audio : bool             (* an audio track and no video track *)
}.

(** A Python exception, kept with the text [str(e)] shows. *)
Inductive exn :=
| FileNotFoundError (path : string)
| Failure (msg : string).

Inductive outcome (A : Type) :=
| Ok (a : A)
| Raise (e : exn).
Arguments Ok {A} a.
Arguments Raise {A} e.

(** A pytube [YouTube] object: what reading [yt.title] and [yt.streams]
    gives (both fetch from the network and may raise). *)
Record YouTube := {
  title : outcome string;
  streams_of : outcome (list Stream)
}.

(** [context.user_data]: a dict that only ever holds the keys ['video'] and
    ['streams']; an absent key is [None], as [user_data.get] returns. *)
Record UserData := {
  video : option YouTube;
  streams : option (list Stream)
}.

(** [context.user_data.clear()] *)
Definition cleared : UserData := {| video := None; streams := None |}.

(** One line of the resolution listing built in [select_video]. *)
Record listing_line := {
  line_no : nat;
  line_res : string;
  line_fps : Z;
  line_size_mb : Q
}.

(** The texts the handlers send with [reply_text], one constructor per
    message of the source, with the values that are formatted into it. *)
Inductive reply :=
| Welcome
| GotIt (t : string)
| ErrInvalidURL (e : exn)
| NoVideoSelected
| NoMP4Streams
| AvailableResolutions (lines : list listing_line)
| ErrFetchingStreams (e : exn)
| NoVideoOrStreams
| InvalidResolutionCommand
| NoStreamFound (res : string)
| VideoTooLarge (size_mb : Q)
| DownloadedSending (res : string)
| Done
| ErrDownloadingVideo (e : exn)
| NoAudioStream
| AudioTooLarge (size_mb : Q)
| ErrProcessingAudio (e : exn)
| OperationCancelled
| ErrorOccurred (e : exn).

(** What a handler does to the outside, in the order it does it. *)
Inductive event :=
| ReplyText (r : reply)
| Fetched (s : Stream) (path : string)
| Transcoded (src dst : string)
| SentVideo (path : string)
| SentAudio (path : string)
| Removed (path : string).

(** The state a handler runs in: the user's dict, the files of the
    [downloads] directory and the effects so far, oldest first. *)
Record World := {
  user_data : UserData;
  disk : gset string;
  outbox : list event
}.

(** The world [w] with the disk [d] and the further effects [evs]. *)
Definition after (w : World) (d : gset string) (evs : list event) : World :=
  {| user_data := user_data w; disk := d; outbox := outbox w ++ evs |}.

(** The external collaborators, as the results their calls give during one
    update: [YouTube(url)], [stream.download], ffmpeg's [run], and the
    transport's [reply_video] and [reply_audio].  [interrupted] is the file
    a raising [stream.download] leaves behind (pytube opens the target file
    for writing before it reads from the network; [None] when it raises
    before that).  [filesize_fails] is what the request behind a first read
    of [stream.filesize] raises, if it does. *)
Record Env := {
  resolve : string -> outcome YouTube;
  fetch : Stream -> outcome string;
  interrupted : Stream -> option string;
  filesize_fails : Stream -> option exn;
  ffmpeg_run : string -> string -> outcome unit;
  send_video : string -> outcome unit;
  send_audio : string -> outcome unit
}.

(** An incoming message: its text, the chat it was sent in
    ([update.effective_chat.id]) and the username of the bot that received
    it ([message.bot.username]). *)
Record Update := {
  text : string;
  chat : Z;
  bot_username : string
}.

(** ** The handler monad: state with exceptions

    A raised exception keeps the state reached so far, as mutation does in
    Python. *)

Definition M (A : Type) : Type := World -> outcome A * World.

Definition ret {A} (a : A) : M A := fun w => (Ok a, w).

Definition bind {A B} (m : M A) (k : A -> M B) : M B :=
  fun w => match m w with
           | (Ok a, w') => k a w'
           | (Raise e, w') => (Raise e, w')
           end.

Definition raise {A} (e : exn) : M A := fun w => (Raise e, w).

(** [try: body except Exception as e: handler e] *)
Definition try_except {A} (body : M A) (handler : exn -> M A) : M A :=
  fun w => match body w with
           | (Ok a, w') => (Ok a, w')
           | (Raise e, w') => handler e w'
           end.

#[global] Instance M_ret : MRet M := @ret.
#[global] Instance M_bind : MBind M := fun A B k m => bind m k.

Definition lift {A} (o : outcome A) : M A := fun w => (o, w).

Definition emit (ev : event) : M unit :=
  fun w => (Ok tt, {| user_data := user_data w; disk := disk w;
                      outbox := outbox w ++ [ev] |}).

Definition get_user_data : M UserData := fun w => (Ok (user_data w), w).

Definition put_user_data (ud : UserData) : M unit :=
  fun w => (Ok tt, {| user_data := ud; disk := disk w; outbox := outbox w |}).

Definition set_disk (d : gset string) : M unit :=
  fun w => (Ok tt, {| user_data := user_data w; disk := d; outbox := outbox w |}).

Definition get_disk : M (gset string) := fun w => (Ok (disk w), w).

(** [update.message.reply_text(...)] *)
Definition reply_text (r : reply) : M unit := emit (ReplyText r).

(** The files a raising download of [s] leaves in [downloads]. *)
Definition leftover (env : Env) (s : Stream) : gset string :=
  match interrupted env s with
  | Some path => {[path]}
  | None => ∅
  end.

(** [stream.download(output_path="downloads")]: the file is on disk when the
    call returns its path; when the call raises, what it wrote until then
    stays on disk. *)
Definition stream_download (env : Env) (s : Stream) : M string :=
  d ← get_disk;
  match fetch env s with
  | Ok path =>
      set_disk (d ∪ {[path]}) ;;
      emit (Fetched s path) ;;
      ret path
  | Raise e =>
      set_disk (d ∪ leftover env s) ;;
      raise e
  end.

(** [open(path, 'rb')] *)
Definition open_rb (path : string) : M unit :=
  d ← get_disk;
  if bool_decide (path ∈ d) then ret tt else raise (FileNotFoundError path).

(** [os.remove(path)] *)
Definition os_remove (path : string) : M unit :=
  d ← get_disk;
  if bool_decide (path ∈ d)
  then set_disk (d ∖ {[path]}) ;; emit (Removed path)
  else raise (FileNotFoundError path).

(** [with open(path, 'rb') as video: update.message.reply_video(video, timeout=120)] *)
Definition reply_video (env : Env) (path : string) : M unit :=
  open_rb path ;;
  lift (send_video env path) ;;
  emit (SentVideo path).

(** [with open(path, 'rb') as audio: update.message.reply_audio(audio, timeout=120)] *)
Definition reply_audio (env : Env) (path : string) : M unit :=
  open_rb path ;;
  lift (send_audio env path) ;;
  emit (SentAudio path).

(** [ffmpeg.input(src).output(dst, format='mp3', audio_bitrate='192k').run()]:
    the output file is on disk when the run succeeds. *)
Definition ffmpeg_convert (env : Env) (src dst : string) : M unit :=
  lift (ffmpeg_run env src dst) ;;
  d ← get_disk;
  set_disk (d ∪ {[dst]}) ;;
  emit (Transcoded src dst).

(** ** pytube's [StreamQuery] *)

(** Python's [sorted(xs, key=key)]: the stable sort, written as the insertion
    sort that puts an element before the first later one whose key is not
    smaller. *)
Section StableSort.
Context {A K : Type} (key : A -> K) (leb : K -> K -> bool).

Fixpoint insert_by (x : A) (l : list A) : list A :=
  match l with
  | [] => [x]
  | y :: l' => if leb (key x) (key y) then x :: y :: l' else y :: insert_by x l'
  end.

Fixpoint sorted_by (l : list A) : list A :=
  match l with
  | [] => []
  | x :: l' => insert_by x (sorted_by l')
  end.

(** The order of the keys, on the elements. *)
Definition key_le (x y : A) : Prop := leb (key x) (key y) = true.

(** The elements whose key is [k]. *)
Definition in_class `{EqDecision K} (k : K) (x : A) : bool :=
  bool_decide (key x = k).
End StableSort.

(** [filter(progressive=True, file_extension='mp4')] *)
Definition progressive_mp4 (s : Stream) : bool :=
  is_progressive s && String.eqb (subtype s) "mp4".

(** The characters [filter(str.isdigit, s.resolution)] keeps. *)
Definition resolution_digits (s : Stream) : list ascii :=
  match resolution s with
  | Some r => List.filter PyStr.isdigit (list_ascii_of_string r)
  | None => []
  end.

(** [int(''.join(filter(str.isdigit, s.resolution)))]; [int('')] raises
    [ValueError], which [has_digits] tells. *)
Definition has_digits (s : Stream) : bool :=
  match resolution_digits s with [] => false | _ => true end.

Definition resolution_int (s : Stream) : N := PyStr.int_of_digits (resolution_digits s).

Definition resolution_label (s : Stream) : string := default EmptyString (resolution s).

Definition has_resolution (s : Stream) : bool :=
  match resolution s with Some _ => true | None => false end.

(** [StreamQuery.order_by('resolution')]: the streams without a resolution
    are dropped; the others are sorted by the integer their digits spell
    or, when a resolution has no digit ([ValueError]), by the label itself. *)
Definition order_by_resolution (fmt_streams : list Stream) : list Stream :=
  let has_attribute := List.filter has_resolution fmt_streams in
  if forallb has_digits has_attribute
  then sorted_by resolution_int N.leb has_attribute
  else sorted_by resolution_label String.leb has_attribute.

(** [StreamQuery.desc()]: [fmt_streams[::-1]] *)
Definition desc (q : list Stream) : list Stream := rev q.

(** The catalog [select_video] lists:
    [yt.streams.filter(progressive=True, file_extension='mp4').order_by('resolution').desc()] *)
Definition catalog_of (all : list Stream) : list Stream :=
  desc (order_by_resolution (List.filter progressive_mp4 all)).

(** The streams the catalog is made of: progressive MP4 streams that have
    a resolution. *)
Definition eligible (all : list Stream) : list Stream :=
  List.filter has_resolution (List.filter progressive_mp4 all).

(** [StreamQuery.first()] *)
Definition first (q : list Stream) : option Stream := head q.

(** ** The size check: [size_mb = stream.filesize / (1024 * 1024)] and
    [size_mb > 50]

    Python's [/] on two ints is the correctly rounded quotient.  A division
    by 2^20 is exact in binary64 for every size below 2^53, and rounding is
    monotone above, so comparing the float against 50 is comparing the
    exact quotient, which is what [Q] holds. *)

Definition size_mb (bytes : Z) : Q := inject_Z bytes / inject_Z (1024 * 1024).

Definition over_50 (mb : Q) : bool := negb (Qle_bool mb 50).

(** ** The handlers *)

Definition set_video (yt : YouTube) : M unit :=
  ud ← get_user_data;
  put_user_data {| video := Some yt; streams := streams ud |}.

Definition set_streams (q : list Stream) : M unit :=
  ud ← get_user_data;
  put_user_data {| video := video ud; streams := Some q |}.

(** [not streams] for what [user_data.get('streams')] returns. *)
Definition no_streams (q : option (list Stream)) : bool :=
  match q with
  | Some (_ :: _) => false
  | _ => true
  end.

Definition start (env : Env) (update : Update) : M handler_result :=
  reply_text Welcome;;
  ret (Next URL).

Definition receive_url (env : Env) (update : Update) : M handler_result :=
  let url := text update in
  try_except
    (yt ← lift (resolve env url);
     set_video yt;;
     t ← lift (title yt);
     reply_text (GotIt t);;
     ret (Next FORMAT))
    (fun e =>
       reply_text (ErrInvalidURL e);;
       ret (Next URL)).

(** The lines built by the loop over [enumerate(streams, 1)]. *)
Definition listing_from (i : nat) (q : list Stream) : list listing_line :=
  imap (fun k stream =>
          {| line_no := i + k;
             line_res := match resolution stream with
                         | Some (String a r) => String a r
                         | _ => "Unknown"
                         end;
             line_fps := fps stream;
             line_size_mb := size_mb (filesize stream) |}) q.

(** The reads of [stream.filesize] in the loop over the catalog: the first
    one that raises ends the loop.  (A size that has been read is kept by
    the stream: the catalog's sizes are read here, and [download] reads the
    size before it writes, so the later reads in [download_video] and
    [download_audio] are of a kept size.) *)
Fixpoint read_sizes (env : Env) (q : list Stream) : outcome unit :=
  match q with
  | [] => Ok tt
  | stream :: q' =>
      match filesize_fails env stream with
      | Some e => Raise e
      | None => read_sizes env q'
      end
  end.

Definition select_video (env : Env) (update : Update) : M handler_result :=
  ud ← get_user_data;
  match video ud with
  | None =>
      reply_text NoVideoSelected;;
      ret (Next URL)
  | Some yt =>
      try_except
        (all ← lift (streams_of yt);
         let streams := catalog_of all in
         match streams with
         | [] =>
             reply_text NoMP4Streams;;
             ret (Next URL)
         | _ :: _ =>
             set_streams streams;;
             lift (read_sizes env streams);;
             reply_text (AvailableResolutions (listing_from 1 streams));;
             ret (Next RESOLUTION)
         end)
        (fun e =>
           reply_text (ErrFetchingStreams e);;
           ret (Next URL))
  end.

(** [command.split('_')[-1] if '_' in command else None] *)
Definition resolution_of_command (command : string) : option string :=
  if PyStr.contains_char "_" command
  then PyStr.last_item (PyStr.split "_" command)
  else None.

(** [next((s for s in streams if s.resolution == resolution), None)] *)
Definition find_stream (res : string) (q : list Stream) : option Stream :=
  List.find (fun s => bool_decide (resolution s = Some res)) q.

Definition download_video (env : Env) (update : Update) : M handler_result :=
  ud ← get_user_data;
  match video ud with
  | Some yt =>
      if no_streams (streams ud)
      then reply_text NoVideoOrStreams;; ret (Next URL)
      else
        let command := text update in
        match resolution_of_command command with
        | None | Some EmptyString =>
            reply_text InvalidResolutionCommand;;
            ret (Next RESOLUTION)
        | Some res =>
            try_except
              (match find_stream res (default [] (streams ud)) with
               | None =>
                   reply_text (NoStreamFound res);;
                   ret (Next RESOLUTION)
               | Some stream =>
                   let mb := size_mb (filesize stream) in
                   if over_50 mb
                   then reply_text (VideoTooLarge mb);; ret (Next RESOLUTION)
                   else
                     file_path ← stream_download env stream;
                     reply_text (DownloadedSending res);;
                     reply_video env file_path;;
                     os_remove file_path;;
                     reply_text Done;;
                     ret (Next URL)
               end)
              (fun e =>
                 reply_text (ErrDownloadingVideo e);;
                 ret (Next RESOLUTION))
        end
  | None => reply_text NoVideoOrStreams;; ret (Next URL)
  end.

(** [file_path.replace('.mp4', '.mp3')] *)
Definition mp3_path_of (file_path : string) : string :=
  PyStr.replace ".mp4" ".mp3" file_path.

Definition download_audio (env : Env) (update : Update) : M handler_result :=
  ud ← get_user_data;
  match video ud with
  | None =>
      reply_text NoVideoSelected;;
      ret (Next URL)
  | Some yt =>
      try_except
        (all ← lift (streams_of yt);
         match first (List.filter only_audio all) with
         | None =>
             reply_text NoAudioStream;;
             ret (Next URL)
         | Some stream =>
             file_path ← stream_download env stream;
             let mp3_path := mp3_path_of file_path in
             let mb := size_mb (filesize stream) in
             if over_50 mb
             then
               reply_text (AudioTooLarge mb);;
               os_remove file_path;;
               ret (Next URL)
             else
               ffmpeg_convert env file_path mp3_path;;
               reply_audio env mp3_path;;
               os_remove file_path;;
               os_remove mp3_path;;
               reply_text Done;;
               ret (Next URL)
         end)
        (fun e =>
           reply_text (ErrProcessingAudio e);;
           ret (Next URL))
  end.

Definition cancel (env : Env) (update : Update) : M handler_result :=
  reply_text OperationCancelled;;
  put_user_data cleared;;
  ret END.

(** The dispatcher's error handler. *)
Definition error (e : exn) : M unit := reply_text (ErrorOccurred e).

(** ** python-telegram-bot: filters, handlers and the [ConversationHandler] *)

Module Telegram.

Definition is_letter (a : ascii) : bool :=
  let n := nat_of_ascii a in
  ((65 <=? n)%nat && (n <=? 90)%nat) || ((97 <=? n)%nat && (n <=? 122)%nat).

(** The characters of a bot command: letters, digits and underscores. *)
Definition command_char (a : ascii) : bool :=
  is_letter a || PyStr.isdigit a || Ascii.eqb a "_".

Fixpoint take_while (p : ascii -> bool) (s : string) : string :=
  match s with
  | EmptyString => EmptyString
  | String a s' => if p a then String a (take_while p s') else EmptyString
  end.

Definition lower_char (a : ascii) : ascii :=
  let n := nat_of_ascii a in
  if (65 <=? n)%nat && (n <=? 90)%nat then ascii_of_nat (n + 32) else a.

Fixpoint lower (s : string) : string :=
  match s with
  | EmptyString => EmptyString
  | String a s' => String (lower_char a) (lower s')
  end.

Fixpoint drop_while (p : ascii -> bool) (s : string) : string :=
  match s with
  | EmptyString => EmptyString
  | String a s' => if p a then drop_while p s' else s
  end.

(** The [bot_command] entity at offset 0 of a message, without its slash:
    the transport marks a slash followed by command characters and, when
    the command is addressed to a bot, an at sign and the bot's username. *)
Definition bot_command (t : string) : option string :=
  match t with
  | String "/" rest =>
      match take_while command_char rest with
      | EmptyString => None
      | name =>
          match drop_while command_char rest with
          | String "@" rest' =>
              match take_while command_char rest' with
              | EmptyString => Some name
              | mention => Some (name +:+ String "@" mention)
              end
          | _ => Some name
          end
      end
  | _ => None
  end.

(** [Filters.command]: the message starts with a bot command. *)
Definition Filters_command (u : Update) : bool :=
  match bot_command (text u) with Some _ => true | None => false end.

(** [Filters.text]: the message has a text. *)
Definition Filters_text (u : Update) : bool :=
  match text u with EmptyString => false | _ => true end.

Definition callback : Type := Env -> Update -> M handler_result.

(** A handler: the test [check_update] makes and the callback to run. *)
Definition handler : Type := (Update -> bool) * callback.

Definition MessageHandler (filters : Update -> bool) (cb : callback) : handler :=
  (filters, cb).

(** The test of [CommandHandler(command, ...)]: the message starts with a
    bot command; [command_parts] is the entity split at the at sign, with the
    bot's own username appended; the first part is [command] and the second
    part is the bot's username, both compared in lower case.  A command
    addressed to another bot is not accepted. *)
Definition accepts (command : string) (u : Update) : bool :=
  match bot_command (text u) with
  | Some entity =>
      match (PyStr.split "@" entity ++ [bot_username u])%list with
      | name :: mention :: _ =>
          String.eqb (lower name) command
          && String.eqb (lower mention) (lower (bot_username u))
      | _ => false
      end
  | None => false
  end.

Definition CommandHandler (command : string) (cb : callback) : handler :=
  (accepts command, cb).

Definition first_match (hs : list handler) (u : Update) : option callback :=
  match List.find (fun h => fst h u) hs with
  | Some h => Some (snd h)
  | None => None
  end.

End Telegram.

(** The table [main] builds:
    [ConversationHandler(entry_points=..., states=..., fallbacks=...)]. *)
Module conv_handler.
Import Telegram.

Definition entry_points : list handler := [CommandHandler "start" start].

Definition states (s : conv_state) : list handler :=
  match s with
  | URL =>
      [MessageHandler (fun u => Filters_text u && negb (Filters_command u)) receive_url]
  | FORMAT =>
      [CommandHandler "video" select_video; CommandHandler "audio" download_audio]
  | RESOLUTION =>
      [MessageHandler Filters_command download_video]
  end.

Definition fallbacks : list handler := [CommandHandler "cancel" cancel].

(** [ConversationHandler.check_update] (with [allow_reentry] left at
    [False]): outside a conversation only the entry points are tried; inside
    one, the handlers of the current state first and the fallbacks only
    when none of those accepts the update. *)
Definition check_update (state : option conv_state) (u : Update) : option callback :=
  match state with
  | None => first_match entry_points u
  | Some s =>
      match first_match (states s) u with
      | Some cb => Some cb
      | None => first_match fallbacks u
      end
  end.

End conv_handler.

(** A user's conversation: the state [ConversationHandler] keeps for the
    user ([None] before [/start] and after [END]) and the world the
    handlers act on. *)
Record Bot := {
  conv : option conv_state;
  world : World
}.

(** The bot when [main] has started polling: no conversation, an empty
    [user_data], an empty [downloads] directory. *)
Definition initial : Bot :=
  {| conv := None;
     world := {| user_data := cleared; disk := ∅; outbox := [] |} |}.

(** One update through the dispatcher: the handler chosen by [check_update]
    runs, and its return value becomes the conversation's state ([END]
    closes the conversation).  An update no handler accepts changes nothing;
    an exception that leaves a handler goes to [error] and keeps the state. *)
Definition handle_update (env : Env) (u : Update) (b : Bot) : Bot :=
  match conv_handler.check_update (conv b) u with
  | None => b
  | Some cb =>
      match cb env u (world b) with
      | (Ok (Next s), w') => {| conv := Some s; world := w' |}
      | (Ok END, w') => {| conv := None; world := w' |}
      | (Raise e, w') => {| conv := conv b; world := snd (error e w') |}
      end
  end.

(** A run over a sequence of updates, each with the behaviour of the
    collaborators while it is handled. *)
Definition run (inputs : list (Env * Update)) (b : Bot) : Bot :=
  fold_left (fun b i => handle_update (fst i) (snd i) b) inputs b.

(** The states of one conversation of a user who talks to the bot in this
    one chat only, with [downloads] to himself. *)
Inductive reachable : Bot -> Prop :=
| reachable_initial : reachable initial
| reachable_step env u b : reachable b -> reachable (handle_update env u b).

(** ** A user in several chats

    [ConversationHandler] keeps the state of a conversation under the key
    (chat, user), while [context.user_data] belongs to the user alone: a
    user who talks to the bot in several chats has one conversation in each
    and one session for all of them.  The [downloads] directory is shared
    with the other users of the bot. *)
Record User := {
  chats : gmap Z conv_state;
  shared : World
}.

(** The user's conversation in the chat [c]. *)
Definition conversation (c : Z) (st : User) : Bot :=
  {| conv := chats st !! c; world := shared st |}.

(** [ConversationHandler.update_state]: [END] removes the key. *)
Definition update_state (c : Z) (new : option conv_state)
    (m : gmap Z conv_state) : gmap Z conv_state :=
  match new with
  | Some s => <[c := s]> m
  | None => delete c m
  end.

(** One update of the user through the dispatcher: it is handled in the
    conversation of the chat it comes from, on the user's one session. *)
Definition process_update (env : Env) (u : Update) (st : User) : User :=
  let b := handle_update env u (conversation (chat u) st) in
  {| chats := update_state (chat u) (conv b) (chats st); shared := world b |}.

Definition user_initial : User := {| chats := ∅; shared := world initial |}.

Definition user_run (inputs : list (Env * Update)) (st : User) : User :=
  fold_left (fun st i => process_update (fst i) (snd i) st) inputs st.

(** The user's session with the files of [downloads] changed by what the
    handlers of other users wrote and removed. *)
Definition with_disk (d : gset string) (st : User) : User :=
  {| chats := chats st;
     shared := {| user_data := user_data (shared st); disk := d;
                  outbox := outbox (shared st) |} |}.

(** What the user reaches by updates in the chats [used], other users
    downloading in between. *)
Inductive reachable_in (used : Z -> Prop) : User -> Prop :=
| reachable_in_initial : reachable_in used user_initial
| reachable_in_update env u st :
    used (chat u) -> reachable_in used st ->
    reachable_in used (process_update env u st)
| reachable_in_elsewhere d st :
    reachable_in used st -> reachable_in used (with_disk d st).

Definition any_chat : Z -> Prop := fun _ => True.

(** What holds of the session in each state of the conversation: outside a
    conversation the dict is empty; while a format is awaited the video is
    there; while a resolution is awaited the video and a non-empty catalog
    are there. *)
Definition session_ok (b : Bot) : Prop :=
  match conv b with
  | None => user_data (world b) = cleared
  | Some URL => True
  | Some FORMAT => is_Some (video (user_data (world b)))
  | Some RESOLUTION =>
      is_Some (video (user_data (world b)))
      /\ no_streams (streams (user_data (world b))) = false
  end.

(** Whether a resolution command gets its video delivered from the catalog
    [q]: the tag names a stream, the stream passes the size check, the
    download succeeds and the send succeeds. *)
Definition delivers (env : Env) (u : Update) (q : list Stream) : bool :=
  match resolution_of_command (text u) with
  | None | Some EmptyString => false
  | Some res =>
      match find_stream res q with
      | None => false
      | Some stream =>
          negb (over_50 (size_mb (filesize stream)))
          && match fetch env stream with
             | Ok file_path =>
                 match send_video env file_path with
                 | Ok _ => true
                 | Raise _ => false
                 end
             | Raise _ => false
             end
      end
  end.

(** ** Notions for the properties of the handlers *)

(** A message that starts with the bot command [command], in any case: the
    test of [CommandHandler(command, ...)]. *)
Definition commands (command : string) (u : Update) : bool :=
  Telegram.accepts command u.

(** The steps between states of the conversation that the table of [main]
    and the return values of the handlers allow ([None]: no conversation). *)
Definition may_follow (s s' : option conv_state) : bool :=
  match s, s' with
  | None, (None | Some URL) => true
  | Some URL, (None | Some URL | Some FORMAT) => true
  | Some FORMAT, (None | Some URL | Some FORMAT | Some RESOLUTION) => true
  | Some RESOLUTION, (Some URL | Some RESOLUTION) => true
  | _, _ => false
  end.

(** The updates the table of [main] has no handler for, state by state:
    outside a conversation all but [/start]; while a URL is awaited the
    commands other than [/cancel] and the messages without text; while a
    format is awaited all but [/video], [/audio] and [/cancel]; while a
    resolution is awaited the messages that are no command. *)
Definition unanswered (s : option conv_state) (u : Update) : bool :=
  match s with
  | None => negb (commands "start" u)
  | Some URL =>
      (negb (Telegram.Filters_text u) || Telegram.Filters_command u)
      && negb (commands "cancel" u)
  | Some FORMAT =>
      negb (commands "video" u) && negb (commands "audio" u)
      && negb (commands "cancel" u)
  | Some RESOLUTION => negb (Telegram.Filters_command u)
  end.

(** The replies of the guards [if not yt] and [if not yt or not streams]. *)
Definition guard_reply (ev : event) : bool :=
  match ev with
  | ReplyText (NoVideoSelected | NoVideoOrStreams) => true
  | _ => false
  end.

(** While a resolution is awaited, the catalog in the session is the one of
    the video in the session. *)
Definition catalog_is_current (b : Bot) : Prop :=
  conv b = Some RESOLUTION ->
  exists yt all,
    video (user_data (world b)) = Some yt
    /\ streams_of yt = Ok all
    /\ streams (user_data (world b)) = Some (catalog_of all)
    /\ catalog_of all <> [].



(** The replies among the effects. *)
Definition replies (evs : list event) : list reply :=
  omap (fun ev => match ev with ReplyText r => Some r | _ => None end) evs.

(** The files an effect list fetched or wrote. *)
Definition written (evs : list event) : list string :=
  omap (fun ev => match ev with
                  | Fetched _ path => Some path
                  | Transcoded _ dst => Some dst
                  | _ => None
                  end) evs.

(** ** The specification's wording, for comparison with the code *)

Module Spec.

Fixpoint drop (n : nat) (s : string) : string :=
  match n, s with
  | O, _ => s
  | S _, EmptyString => EmptyString
  | S k, String _ s' => drop k s'
  end.

(** "its first occurrence of the substring replaced": the first occurrence
    only, the rest of the path kept as it is. *)
Fixpoint replace_first (old new s : string) : string :=
  match s with
  | EmptyString => EmptyString
  | String a s' =>
      if PyStr.startswith old s
      then new +:+ drop (String.length old) s
      else String a (replace_first old new s')
  end.

(** "sorted by resolution descending; ties broken by declared fps
    descending, then by declared size descending": what must hold between
    a stream and the one listed after it. *)
Definition precedes (a b : Stream) : bool :=
  (resolution_int b <? resolution_int a)%N
  || ((resolution_int a =? resolution_int b)%N
      && ((fps b <? fps a)%Z
          || ((fps a =? fps b)%Z && (filesize b <=? filesize a)%Z))).

Fixpoint ordered (q : list Stream) : bool :=
  match q with
  | a :: (b :: _) as q' => precedes a b && ordered q'
  | _ => true
  end.


(** The size gate: a size of at most the limit passes, a larger one is
    refused. *)
Definition limit_bytes : Z := 50 * 1024 * 1024.

Definition passes (size_bytes : Z) : bool := (size_bytes <=? limit_bytes)%Z.

End Spec.

(** ** Concrete sessions *)

Module Demo.

Definition MB : Z := 1024 * 1024.

Definition v1080 : Stream :=
  {| resolution := Some "1080p"; fps := 30; filesize := 60 * MB;
     is_progressive := true; subtype := "mp4"; only_audio := false |}.

Definition v720 : Stream :=
  {| resolution := Some "720p"; fps := 30; filesize := 30 * MB;
     is_progressive := true; subtype := "mp4"; only_audio := false |}.

Definition v720_60 : Stream :=
  {| resolution := Some "720p"; fps := 60; filesize := 45 * MB;
     is_progressive := true; subtype := "mp4"; only_audio := false |}.

Definition a_mp4 : Stream :=
  {| resolution := None; fps := 0; filesize := 40 * MB;
     is_progressive := false; subtype := "mp4"; only_audio := true |}.

Definition a_big : Stream :=
  {| resolution := None; fps := 0; filesize := 60 * MB;
     is_progressive := false; subtype := "mp4"; only_audio := true |}.

Definition a_webm : Stream :=
  {| resolution := None; fps := 0; filesize := 3 * MB;
     is_progressive := false; subtype := "webm"; only_audio := true |}.

(** A video of exactly 50 * 1024 * 1024 bytes, and one a byte larger. *)
Definition v_limit : Stream :=
  {| resolution := Some "480p"; fps := 30; filesize := 52428800;
     is_progressive := true; subtype := "mp4"; only_audio := false |}.

Definition v_over : Stream :=
  {| resolution := Some "480p"; fps := 30; filesize := 52428801;
     is_progressive := true; subtype := "mp4"; only_audio := false |}.

Definition media (q : list Stream) : YouTube :=
  {| title := Ok "clip"; streams_of := Ok q |}.

(** Every collaborator succeeds; a stream is saved as [downloads/clip.<subtype>]. *)
Definition env_ok (q : list Stream) : Env :=
  {| resolve := fun _ => Ok (media q);
     fetch := fun s => Ok ("downloads/clip." +:+ subtype s);
     interrupted := fun _ => None;
     filesize_fails := fun _ => None;
     ffmpeg_run := fun _ _ => Ok tt;
     send_video := fun _ => Ok tt;
     send_audio := fun _ => Ok tt |}.

Definition env_fetch_fails (q : list Stream) : Env :=
  {| resolve := fun _ => Ok (media q);
     fetch := fun _ => Raise (Failure "connection reset");
     interrupted := fun s => Some ("downloads/clip." +:+ subtype s);
     filesize_fails := fun _ => None;
     ffmpeg_run := fun _ _ => Ok tt;
     send_video := fun _ => Ok tt;
     send_audio := fun _ => Ok tt |}.

Definition env_send_fails (q : list Stream) : Env :=
  {| resolve := fun _ => Ok (media q);
     fetch := fun s => Ok ("downloads/clip." +:+ subtype s);
     interrupted := fun _ => None;
     filesize_fails := fun _ => None;
     ffmpeg_run := fun _ _ => Ok tt;
     send_video := fun _ => Raise (Failure "timed out");
     send_audio := fun _ => Raise (Failure "timed out") |}.

Definition env_ffmpeg_fails (q : list Stream) : Env :=
  {| resolve := fun _ => Ok (media q);
     fetch := fun s => Ok ("downloads/clip." +:+ subtype s);
     interrupted := fun _ => None;
     filesize_fails := fun _ => None;
     ffmpeg_run := fun _ _ => Raise (Failure "ffmpeg error");
     send_video := fun _ => Ok tt;
     send_audio := fun _ => Ok tt |}.

(** A message to the bot [clipbot] in the chat 1. *)
Definition msg (t : string) : Update :=
  {| text := t; chat := 1; bot_username := "clipbot" |}.

(** The same user's message in another chat with the bot. *)
Definition msg_in (c : Z) (t : string) : Update :=
  {| text := t; chat := c; bot_username := "clipbot" |}.

(** The request for the size of a stream fails. *)
Definition env_size_fails (q : list Stream) : Env :=
  {| resolve := fun _ => Ok (media q);
     fetch := fun s => Ok ("downloads/clip." +:+ subtype s);
     interrupted := fun _ => None;
     filesize_fails := fun _ => Some (Failure "HTTP Error 403");
     ffmpeg_run := fun _ _ => Ok tt;
     send_video := fun _ => Ok tt;
     send_audio := fun _ => Ok tt |}.

Definition videos : list Stream := [v1080; v720].

(** [/start], a URL, [/video]: the session waits for a resolution. *)
Definition to_resolution (q : list Stream) : list (Env * Update) :=
  [(env_ok q, msg "/start");
   (env_ok q, msg "https://youtu.be/clip");
   (env_ok q, msg "/video")].

(** The user starts a conversation in the chat 2 and cancels it. *)
Definition cancel_elsewhere (q : list Stream) : list (Env * Update) :=
  [(env_ok q, msg_in 2 "/start");
   (env_ok q, msg_in 2 "/cancel")].

(** [/start], a URL: the session waits for a format. *)
Definition to_format (q : list Stream) : list (Env * Update) :=
  [(env_ok q, msg "/start");
   (env_ok q, msg "https://youtu.be/clip")].

Definition at_resolution (q : list Stream) : Bot := run (to_resolution q) initial.

Definition at_format (q : list Stream) : Bot := run (to_format q) initial.

(** A resolution is awaited in the chat 1, and the user has cancelled in
    the chat 2. *)
Definition emptied : User :=
  user_run (to_resolution videos ++ cancel_elsewhere videos) user_initial.

(** The user waits for a resolution in the chat 1, the only chat used. *)
Definition user_at_resolution : User :=
  user_run (to_resolution videos) user_initial.

(** The 720p video has been delivered in the chat 1. *)
Definition user_delivered : User :=
  user_run (to_resolution videos ++ [(env_ok videos, msg "/res_720p")])
    user_initial.

(** After the delivery, the user sends another URL. *)
Definition user_second_url : User :=
  user_run (to_resolution videos
              ++ [(env_ok videos, msg "/res_720p");
                  (env_ok [a_mp4], msg "https://youtu.be/song")])
    user_initial.


End Demo.

(** * Properties *)

(** ** Strings *)

Example split_res : PyStr.split "_" "/res_1080p" = ["/res"; "1080p"].
Proof. reflexivity. Qed.

Example split_none : PyStr.split "_" "/cancel" = ["/cancel"].
Proof. reflexivity. Qed.

Example replace_twice : PyStr.replace ".mp4" ".mp3" "a.mp4.mp4" = "a.mp3.mp3".
Proof. reflexivity. Qed.

Example replace_webm :
  PyStr.replace ".mp4" ".mp3" "downloads/a.webm" = "downloads/a.webm".
Proof. reflexivity. Qed.

Lemma string_app_cons a (s t : string) : String a s +:+ t = String a (s +:+ t).
Proof. reflexivity. Qed.

Lemma string_app_nil (t : string) : EmptyString +:+ t = t.
Proof. reflexivity. Qed.

Lemma string_app_empty (s : string) : s +:+ EmptyString = s.
Proof.
  induction s as [|a s IH]; [reflexivity|].
  now rewrite string_app_cons, IH.
Qed.

Lemma split_aux_nonempty sep cur s : PyStr.split_aux sep cur s <> [].
Proof.
  revert cur. induction s as [|a s IH]; intros cur; simpl; [discriminate|].
  destruct (Ascii.eqb a sep); [discriminate | apply IH].
Qed.

Lemma string_of_snoc l a (t : string) :
  string_of_list_ascii (l ++ [a]) +:+ t = string_of_list_ascii l +:+ String a t.
Proof.
  induction l as [|c l IH]; simpl; [reflexivity|].
  now rewrite !string_app_cons, IH.
Qed.

(** A text without the separator is a single segment. *)
Lemma split_aux_no_sep sep cur t :
  PyStr.contains_char sep t = false ->
  PyStr.split_aux sep cur t = [string_of_list_ascii (rev cur) +:+ t].
Proof.
  revert cur. induction t as [|a t IH]; intros cur H; simpl in *.
  - now rewrite string_app_empty.
  - destruct (Ascii.eqb a sep); [discriminate|].
    rewrite IH by assumption. simpl.
    now rewrite string_of_snoc.
Qed.

(** The last segment of a text is what follows its last separator. *)
Lemma split_aux_last sep cur pre tag :
  PyStr.contains_char sep tag = false ->
  last (PyStr.split_aux sep cur (pre +:+ String sep tag)) = Some tag.
Proof.
  intros Htag. revert cur.
  induction pre as [|a pre IH]; intros cur;
    rewrite ?string_app_cons, ?string_app_nil; simpl.
  - rewrite Ascii.eqb_refl.
    rewrite (split_aux_no_sep sep [] tag Htag). reflexivity.
  - destruct (Ascii.eqb a sep).
    + specialize (IH []).
      destruct (PyStr.split_aux sep [] (pre +:+ String sep tag)) eqn:E.
      * now apply split_aux_nonempty in E.
      * exact IH.
    + apply IH.
Qed.

Lemma contains_char_app sep pre t :
  PyStr.contains_char sep (pre +:+ String sep t) = true.
Proof.
  induction pre as [|a pre IH];
    rewrite ?string_app_cons, ?string_app_nil; simpl.
  - now rewrite Ascii.eqb_refl.
  - destruct (Ascii.eqb a sep); auto.
Qed.

Lemma resolution_of_command_last pre tag :
  PyStr.contains_char "_" tag = false ->
  resolution_of_command (pre +:+ String "_" tag) = Some tag.
Proof.
  intros H. unfold resolution_of_command, PyStr.last_item, PyStr.split.
  rewrite contains_char_app. now apply split_aux_last.
Qed.

Lemma resolution_of_command_none command :
  PyStr.contains_char "_" command = false ->
  resolution_of_command command = None.
Proof. intros H. unfold resolution_of_command. now rewrite H. Qed.

Lemma string_app_assoc (a b c : string) : (a +:+ b) +:+ c = a +:+ (b +:+ c).
Proof.
  induction a as [|x a IH]; [reflexivity|].
  now rewrite !string_app_cons, IH.
Qed.

Lemma string_length_app (a b : string) :
  String.length (a +:+ b) = String.length a + String.length b.
Proof.
  induction a as [|x a IH]; [reflexivity|].
  rewrite string_app_cons. simpl. now rewrite IH.
Qed.

(** Whether a text starts with [old] is decided by its first characters. *)
Lemma startswith_app old s t :
  String.length old <= String.length s ->
  PyStr.startswith old (s +:+ t) = PyStr.startswith old s.
Proof.
  revert s. induction old as [|a old IH]; intros s H.
  - now destruct s.
  - destruct s as [|b s]; simpl in H; [lia|].
    rewrite string_app_cons. simpl. rewrite IH by lia. reflexivity.
Qed.

(** Skipping the rest of a matched occurrence resumes on the text behind it. *)
Lemma replace_aux_skip old new k s :
  PyStr.replace_aux old new k s = PyStr.replace old new (Spec.drop k s).
Proof.
  unfold PyStr.replace. revert k.
  induction s as [|a s IH]; intros [|k]; try reflexivity.
  simpl. apply IH.
Qed.

(** One step of [replace]: at an occurrence, the replacement and then the
    text behind the occurrence; elsewhere, the character as it is. *)
Lemma replace_unfold old new a s :
  PyStr.replace old new (String a s) =
  if PyStr.startswith old (String a s)
  then new +:+ PyStr.replace old new (Spec.drop (String.length old - 1) s)
  else String a (PyStr.replace old new s).
Proof.
  unfold PyStr.replace at 1. cbn [PyStr.replace_aux].
  destruct (PyStr.startswith old (String a s)); [|reflexivity].
  now rewrite replace_aux_skip.
Qed.

Lemma replace_no_occurrence old new s :
  PyStr.contains old s = false -> PyStr.replace old new s = s.
Proof.
  induction s as [|a s IH]; intros H; [reflexivity|].
  cbn [PyStr.contains] in H. apply orb_false_elim in H as [H1 H2].
  rewrite replace_unfold, H1. f_equal. now apply IH.
Qed.

(** Every occurrence of [.mp4] is replaced: after the first one, the
    replacement goes on in the rest of the path. *)
Lemma mp3_path_of_occurrence a b :
  PyStr.contains ".mp4" (a +:+ ".mp") = false ->
  mp3_path_of (a +:+ ".mp4" +:+ b) = a +:+ ".mp3" +:+ mp3_path_of b.
Proof.
  unfold mp3_path_of. induction a as [|c a IH]; intros H.
  - reflexivity.
  - change (String c a +:+ ".mp") with (String c (a +:+ ".mp")) in H.
    cbn [PyStr.contains] in H. apply orb_false_elim in H as [H1 H2].
    change (String c a +:+ ".mp4" +:+ b) with (String c (a +:+ ".mp4" +:+ b)).
    change (String c a +:+ ".mp3" +:+ PyStr.replace ".mp4" ".mp3" b)
      with (String c (a +:+ ".mp3" +:+ PyStr.replace ".mp4" ".mp3" b)).
    rewrite replace_unfold.
    assert (E : PyStr.startswith ".mp4" (String c (a +:+ ".mp4" +:+ b)) = false).
    { etransitivity; [|exact H1].
      rewrite <- (startswith_app ".mp4" (String c (a +:+ ".mp")) ("4" +:+ b)).
      - now rewrite (string_app_cons c), string_app_assoc.
      - simpl. rewrite string_length_app. simpl. lia. }
    rewrite E. f_equal. now apply IH.
Qed.

Lemma mp3_path_of_same file_path :
  PyStr.contains ".mp4" file_path = false -> mp3_path_of file_path = file_path.
Proof. apply replace_no_occurrence. Qed.

(** ** The size check *)

Lemma over_50_iff bytes :
  over_50 (size_mb bytes) = true <-> (50 * 1024 * 1024 < bytes)%Z.
Proof.
  unfold over_50. rewrite negb_true_iff, <- not_true_iff_false, Qle_bool_iff.
  unfold size_mb, Qle, Qdiv, Qmult, Qinv, inject_Z. simpl. lia.
Qed.

Lemma over_50_passes bytes : over_50 (size_mb bytes) = negb (Spec.passes bytes).
Proof.
  unfold Spec.passes, Spec.limit_bytes.
  destruct (over_50 (size_mb bytes)) eqn:E.
  - apply over_50_iff in E. symmetry. apply negb_true_iff, Z.leb_gt. lia.
  - symmetry. apply negb_false_iff, Z.leb_le.
    destruct (Z_lt_le_dec (50 * 1024 * 1024) bytes) as [H|H]; [|lia].
    apply over_50_iff in H. congruence.
Qed.

(** C4: the check as the code makes it (the size in bytes divided by
    1024 * 1024, compared with 50) lets a stream through exactly when its
    size is at most 50 * 1024 * 1024 = 52428800 bytes: a stream of exactly
    the limit passes, one byte more is refused. *)
Theorem size_gate_boundary :
  (forall bytes, over_50 (size_mb bytes) = false <-> (bytes <= Spec.limit_bytes)%Z)
  /\ Spec.limit_bytes = 52428800%Z
  /\ over_50 (size_mb Spec.limit_bytes) = false
  /\ over_50 (size_mb (Spec.limit_bytes + 1)) = true.
Proof.
  split; [|split; [reflexivity|split]].
  - intros bytes. rewrite over_50_passes, negb_false_iff.
    unfold Spec.passes. apply Z.leb_le.
  - rewrite over_50_passes. reflexivity.
  - rewrite over_50_passes. reflexivity.
Qed.

(** The two sizes at the boundary, through [download_video]. *)
Example video_at_limit_is_sent :
  let b := handle_update (Demo.env_ok [Demo.v_limit]) (Demo.msg "/res_480p")
             (Demo.at_resolution [Demo.v_limit]) in
  conv b = Some URL
  /\ last (outbox (world b)) = Some (ReplyText Done).
Proof. split; reflexivity. Qed.

Example video_over_limit_is_refused :
  let b := handle_update (Demo.env_ok [Demo.v_over]) (Demo.msg "/res_480p")
             (Demo.at_resolution [Demo.v_over]) in
  conv b = Some RESOLUTION
  /\ last (outbox (world b))
     = Some (ReplyText (VideoTooLarge (size_mb (filesize Demo.v_over)))).
Proof. split; reflexivity. Qed.

(** ** The stable sort *)

Section StableSortFacts.
Context {A K : Type} `{EqDecision K} (key : A -> K) (leb : K -> K -> bool).
Hypothesis leb_total : forall a b, leb a b = true \/ leb b a = true.
Hypothesis leb_trans : forall a b c, leb a b = true -> leb b c = true -> leb a c = true.

Local Abbreviation le_key := (key_le key leb).
Local Abbreviation in_class := (in_class key).

Lemma leb_refl k : leb k k = true.
Proof. now destruct (leb_total k k). Qed.

Lemma insert_by_perm x l : Permutation (insert_by key leb x l) (x :: l).
Proof.
  induction l as [|y l IH]; simpl; [reflexivity|].
  destruct (leb (key x) (key y)); [reflexivity|].
  rewrite IH. apply perm_swap.
Qed.

Lemma sorted_by_perm l : Permutation (sorted_by key leb l) l.
Proof.
  induction l as [|x l IH]; simpl; [reflexivity|].
  rewrite insert_by_perm. now apply perm_skip.
Qed.

Lemma insert_by_sorted x l :
  StronglySorted le_key l -> StronglySorted le_key (insert_by key leb x l).
Proof.
  induction 1 as [|y l Hl IH Hy]; simpl.
  - repeat constructor.
  - destruct (leb (key x) (key y)) eqn:E.
    + constructor; [now constructor|].
      constructor; [exact E|].
      eapply Forall_impl; [exact Hy|].
      intros z Hz. unfold key_le in *. eauto.
    + constructor; [exact IH|].
      rewrite (insert_by_perm x l). constructor; [|exact Hy].
      unfold key_le. destruct (leb_total (key x) (key y)); congruence.
Qed.

Lemma sorted_by_sorted l : StronglySorted le_key (sorted_by key leb l).
Proof.
  induction l as [|x l IH]; simpl; [constructor | now apply insert_by_sorted].
Qed.

(** Stability: an insertion passes over smaller keys only, so the elements
    of one key keep their order. *)
Lemma insert_by_class k x l :
  List.filter (in_class k) (insert_by key leb x l) = List.filter (in_class k) (x :: l).
Proof.
  induction l as [|y l IH]; [reflexivity|].
  cbn [insert_by]. destruct (leb (key x) (key y)) eqn:E; [reflexivity|].
  cbn [List.filter] in *. rewrite IH. unfold in_class.
  repeat case_bool_decide; try reflexivity.
  assert (leb (key x) (key y) = true) by (replace (key y) with (key x) by congruence; apply leb_refl).
  congruence.
Qed.

Lemma sorted_by_class k l :
  List.filter (in_class k) (sorted_by key leb l) = List.filter (in_class k) l.
Proof.
  induction l as [|x l IH]; [reflexivity|].
  cbn [sorted_by]. rewrite insert_by_class. cbn [List.filter]. now rewrite IH.
Qed.
End StableSortFacts.

Lemma StronglySorted_snoc {A} (R : A -> A -> Prop) l x :
  StronglySorted R l -> Forall (fun y => R y x) l -> StronglySorted R (l ++ [x]).
Proof.
  induction 1 as [|y l Hl IH Hy]; intros Hx; simpl.
  - repeat constructor.
  - inversion Hx as [|? ? Hyx Hlx]; subst.
    constructor; [now apply IH|].
    apply Forall_app. split; [exact Hy | now constructor].
Qed.

Lemma StronglySorted_rev {A} (R : A -> A -> Prop) l :
  StronglySorted R l -> StronglySorted (fun a b => R b a) (rev l).
Proof.
  induction 1 as [|x l Hl IH Hx]; simpl; [constructor|].
  apply StronglySorted_snoc; [exact IH|].
  now apply Forall_rev.
Qed.

Lemma StronglySorted_weaken {A} (R R' : A -> A -> Prop) l :
  (forall a b, R a b -> R' a b) -> StronglySorted R l -> StronglySorted R' l.
Proof.
  intros HR. induction 1 as [|x l Hl IH Hx]; constructor; [exact IH|].
  eapply Forall_impl; [exact Hx | auto].
Qed.

(** ** The catalog *)

Lemma N_leb_total a b : N.leb a b = true \/ N.leb b a = true.
Proof. rewrite !N.leb_le. lia. Qed.

Lemma N_leb_trans a b c : N.leb a b = true -> N.leb b c = true -> N.leb a c = true.
Proof. rewrite !N.leb_le. lia. Qed.

Lemma catalog_of_numeric all :
  forallb has_digits (eligible all) = true ->
  catalog_of all = rev (sorted_by resolution_int N.leb (eligible all)).
Proof.
  intros H. unfold catalog_of, desc, order_by_resolution.
  fold (eligible all). now rewrite H.
Qed.

Example catalog_demo :
  catalog_of [Demo.v720_60; Demo.a_mp4; Demo.v1080; Demo.v720]
  = [Demo.v1080; Demo.v720; Demo.v720_60].
Proof. reflexivity. Qed.

(** C7, as the code has it: the catalog holds the progressive MP4 streams
    that have a resolution, sorted by the number in the resolution label,
    largest first; the streams of one resolution are listed in the reverse
    of the provider's order, whatever their fps and size; and the catalog is
    a function of those streams alone.  (Stated for labels that all hold a
    digit, which is when the code sorts by number.) *)
Theorem catalog_order all :
  forallb has_digits (eligible all) = true ->
  StronglySorted (fun a b => (resolution_int b <= resolution_int a)%N) (catalog_of all)
  /\ (forall k, List.filter (in_class resolution_int k) (catalog_of all)
                = rev (List.filter (in_class resolution_int k) (eligible all)))
  /\ Permutation (catalog_of all) (eligible all)
  /\ (forall all', eligible all' = eligible all -> catalog_of all' = catalog_of all).
Proof.
  intros H. rewrite (catalog_of_numeric all H). repeat split.
  - eapply StronglySorted_weaken;
      [|apply StronglySorted_rev, (sorted_by_sorted resolution_int N.leb)].
    + intros a b Hab. unfold key_le in Hab. now apply N.leb_le.
    + apply N_leb_total.
    + apply N_leb_trans.
  - intros k. rewrite List.filter_rev. f_equal.
    apply sorted_by_class. apply N_leb_total.
  - rewrite <- Permutation_rev. apply sorted_by_perm.
  - intros all' E. rewrite catalog_of_numeric by now rewrite E.
    now rewrite E.
Qed.

Lemma catalog_order_witness :
  StronglySorted (fun a b => (resolution_int b <= resolution_int a)%N)
    (catalog_of [Demo.v720_60; Demo.a_mp4; Demo.v1080; Demo.v720])
  /\ (forall k,
        List.filter (in_class resolution_int k)
          (catalog_of [Demo.v720_60; Demo.a_mp4; Demo.v1080; Demo.v720])
        = rev (List.filter (in_class resolution_int k)
                 (eligible [Demo.v720_60; Demo.a_mp4; Demo.v1080; Demo.v720])))
  /\ Permutation (catalog_of [Demo.v720_60; Demo.a_mp4; Demo.v1080; Demo.v720])
       (eligible [Demo.v720_60; Demo.a_mp4; Demo.v1080; Demo.v720])
  /\ (forall all',
        eligible all' = eligible [Demo.v720_60; Demo.a_mp4; Demo.v1080; Demo.v720] ->
        catalog_of all' = catalog_of [Demo.v720_60; Demo.a_mp4; Demo.v1080; Demo.v720]).
Proof.
  apply (catalog_order [Demo.v720_60; Demo.a_mp4; Demo.v1080; Demo.v720]).
  reflexivity.
Defined.

(** The provider lists 720p at 60 fps before 720p at 30 fps; the catalog
    lists the 30 fps stream first, against the tie-break by fps. *)
Lemma catalog_tie_break_counterexample :
  catalog_of [Demo.v720_60; Demo.v720] = [Demo.v720; Demo.v720_60]
  /\ Spec.ordered (catalog_of [Demo.v720_60; Demo.v720]) = false.
Proof. split; reflexivity. Qed.

(** ** Running the handlers *)

Ltac unfold_m :=
  cbv beta iota zeta delta
    [mbind M_bind bind ret raise lift try_except reply_text emit
     get_user_data put_user_data set_disk get_disk set_video set_streams
     stream_download open_rb os_remove reply_video reply_audio
     ffmpeg_convert after];
  cbn [user_data disk outbox].

Lemma find_stream_nonempty res q s :
  find_stream res q = Some s -> no_streams (Some q) = false.
Proof. destruct q; [discriminate | reflexivity]. Qed.

(** The size check of [download_video] refuses before anything is fetched. *)
Lemma download_video_too_large env u w yt q res s :
  video (user_data w) = Some yt ->
  streams (user_data w) = Some q ->
  resolution_of_command (text u) = Some res ->
  res <> EmptyString ->
  find_stream res q = Some s ->
  over_50 (size_mb (filesize s)) = true ->
  download_video env u w
  = (Ok (Next RESOLUTION),
     after w (disk w) [ReplyText (VideoTooLarge (size_mb (filesize s)))]).
Proof.
  intros Hv Hq Hres Hne Hs Hbig.
  unfold download_video. unfold_m. simpl.
  rewrite Hv, Hq, (find_stream_nonempty _ _ _ Hs), Hres.
  destruct res as [|a res]; [congruence|].
  simpl. rewrite Hs, Hbig. reflexivity.
Qed.

Ltac on_disk :=
  repeat match goal with
    | |- context [bool_decide (?p ∈ ?d)] =>
        first [ rewrite (bool_decide_eq_true_2 (p ∈ d)) by set_solver
              | rewrite (bool_decide_eq_false_2 (p ∈ d)) by set_solver ]
    end.

Ltac tidy_outbox := unfold_m; rewrite <- ?app_assoc; simpl.

Section DownloadVideo.
Context (env : Env) (u : Update) (w : World).
Context (yt : YouTube) (q : list Stream) (res : string) (s : Stream).
Hypothesis Hvideo : video (user_data w) = Some yt.
Hypothesis Hstreams : streams (user_data w) = Some q.
Hypothesis Hcommand : resolution_of_command (text u) = Some res.
Hypothesis Hres : res <> EmptyString.
Hypothesis Hfound : find_stream res q = Some s.
Hypothesis Hsmall : over_50 (size_mb (filesize s)) = false.

Ltac enter_video :=
  unfold download_video; unfold_m; simpl;
  rewrite Hvideo, Hstreams, (find_stream_nonempty _ _ _ Hfound), Hcommand;
  destruct res as [|? ?]; [congruence|];
  simpl; rewrite Hfound, Hsmall.

(** The download raises: the handler answers with the error and returns
    [RESOLUTION]; what the download wrote until then stays in [downloads]. *)
Lemma download_video_fetch_fails e :
  fetch env s = Raise e ->
  download_video env u w
  = (Ok (Next RESOLUTION),
     after w (disk w ∪ leftover env s) [ReplyText (ErrDownloadingVideo e)]).
Proof. intros Hf. enter_video. rewrite Hf. reflexivity. Qed.

(** The download succeeds and the send raises: the handler answers with the
    error and returns [RESOLUTION]; the file stays in [downloads]. *)
Lemma download_video_send_fails path e :
  fetch env s = Ok path ->
  send_video env path = Raise e ->
  download_video env u w
  = (Ok (Next RESOLUTION),
     after w (disk w ∪ {[path]})
       [Fetched s path; ReplyText (DownloadedSending res);
        ReplyText (ErrDownloadingVideo e)]).
Proof.
  intros Hf Hsend. enter_video. rewrite Hf. unfold_m. on_disk.
  rewrite Hsend. tidy_outbox. reflexivity.
Qed.

(** Download and send succeed: the file is removed and the handler returns
    [URL]. *)
Lemma download_video_success path :
  fetch env s = Ok path ->
  send_video env path = Ok tt ->
  download_video env u w
  = (Ok (Next URL),
     after w ((disk w ∪ {[path]}) ∖ {[path]})
       [Fetched s path; ReplyText (DownloadedSending res); SentVideo path;
        Removed path; ReplyText Done]).
Proof.
  intros Hf Hsend. enter_video. rewrite Hf. unfold_m. on_disk.
  rewrite Hsend. unfold_m. on_disk. tidy_outbox. reflexivity.
Qed.

End DownloadVideo.

Section DownloadAudio.
Context (env : Env) (u : Update) (w : World).
Context (yt : YouTube) (all : list Stream) (s : Stream) (path : string).
Hypothesis Hvideo : video (user_data w) = Some yt.
Hypothesis Hall : streams_of yt = Ok all.
Hypothesis Hfirst : first (List.filter only_audio all) = Some s.
Hypothesis Hfetch : fetch env s = Ok path.

Ltac enter_audio :=
  unfold download_audio; unfold_m;
  rewrite Hvideo, Hall, Hfirst, Hfetch; unfold_m.

(** The audio stream is fetched first and its size checked afterwards; when
    the check refuses, the fetched file is removed again. *)
Lemma download_audio_too_large :
  over_50 (size_mb (filesize s)) = true ->
  download_audio env u w
  = (Ok (Next URL),
     after w ((disk w ∪ {[path]}) ∖ {[path]})
       [Fetched s path; ReplyText (AudioTooLarge (size_mb (filesize s)));
        Removed path]).
Proof.
  intros Hbig. enter_audio. rewrite Hbig. unfold_m. on_disk.
  tidy_outbox. reflexivity.
Qed.

(** ffmpeg raises: the handler answers with the error; the raw file stays. *)
Lemma download_audio_ffmpeg_fails e :
  over_50 (size_mb (filesize s)) = false ->
  ffmpeg_run env path (mp3_path_of path) = Raise e ->
  download_audio env u w
  = (Ok (Next URL),
     after w (disk w ∪ {[path]})
       [Fetched s path; ReplyText (ErrProcessingAudio e)]).
Proof.
  intros Hsmall Hff. enter_audio. rewrite Hsmall, Hff.
  tidy_outbox. reflexivity.
Qed.

(** The send raises: the raw file and the MP3 both stay. *)
Lemma download_audio_send_fails e :
  over_50 (size_mb (filesize s)) = false ->
  ffmpeg_run env path (mp3_path_of path) = Ok tt ->
  send_audio env (mp3_path_of path) = Raise e ->
  download_audio env u w
  = (Ok (Next URL),
     after w (disk w ∪ {[path]} ∪ {[mp3_path_of path]})
       [Fetched s path; Transcoded path (mp3_path_of path);
        ReplyText (ErrProcessingAudio e)]).
Proof.
  intros Hsmall Hff Hsend. enter_audio. rewrite Hsmall, Hff. unfold_m.
  on_disk. rewrite Hsend. tidy_outbox. reflexivity.
Qed.

(** Everything succeeds and the MP3 is another file than the raw one: both
    are removed. *)
Lemma download_audio_success :
  over_50 (size_mb (filesize s)) = false ->
  ffmpeg_run env path (mp3_path_of path) = Ok tt ->
  send_audio env (mp3_path_of path) = Ok tt ->
  mp3_path_of path <> path ->
  download_audio env u w
  = (Ok (Next URL),
     after w (((disk w ∪ {[path]} ∪ {[mp3_path_of path]}) ∖ {[path]})
                ∖ {[mp3_path_of path]})
       [Fetched s path; Transcoded path (mp3_path_of path);
        SentAudio (mp3_path_of path); Removed path;
        Removed (mp3_path_of path); ReplyText Done]).
Proof.
  intros Hsmall Hff Hsend Hne. enter_audio. rewrite Hsmall, Hff. unfold_m.
  on_disk. rewrite Hsend. unfold_m. on_disk. unfold_m. on_disk.
  tidy_outbox. reflexivity.
Qed.

(** Everything succeeds and the MP3 path is the raw path: the first
    [os.remove] deletes the file, the second raises [FileNotFoundError], and
    the handler answers with that error. *)
Lemma download_audio_same_path :
  over_50 (size_mb (filesize s)) = false ->
  ffmpeg_run env path (mp3_path_of path) = Ok tt ->
  send_audio env (mp3_path_of path) = Ok tt ->
  mp3_path_of path = path ->
  download_audio env u w
  = (Ok (Next URL),
     after w ((disk w ∪ {[path]} ∪ {[path]}) ∖ {[path]})
       [Fetched s path; Transcoded path path; SentAudio path; Removed path;
        ReplyText (ErrProcessingAudio (FileNotFoundError path))]).
Proof.
  intros Hsmall Hff Hsend Heq. rewrite Heq in *. enter_audio.
  rewrite Heq, Hsmall, Hff. unfold_m.
  on_disk. rewrite Hsend. unfold_m. on_disk. unfold_m. on_disk.
  tidy_outbox. reflexivity.
Qed.

End DownloadAudio.

(** ** What each handler returns *)

Ltac split_cases :=
  repeat (unfold_m;
          match goal with
          | |- context [match ?x with _ => _ end] =>
              lazymatch x with
              | context [match _ with _ => _ end] => fail
              | _ => destruct x eqn:?
              end
          end);
  unfold_m.

Lemma start_runs env u w :
  start env u w = (Ok (Next URL), after w (disk w) [ReplyText Welcome]).
Proof. reflexivity. Qed.

Lemma cancel_runs env u w :
  cancel env u w
  = (Ok END, {| user_data := cleared; disk := disk w;
                outbox := outbox w ++ [ReplyText OperationCancelled] |}).
Proof. reflexivity. Qed.

Lemma receive_url_returns env u w :
  exists r w',
    receive_url env u w = (Ok r, w')
    /\ disk w' = disk w
    /\ (r = Next URL
        \/ (r = Next FORMAT /\ is_Some (video (user_data w')))).
Proof.
  unfold receive_url. split_cases;
    do 2 eexists; (split; [reflexivity|]); split; try reflexivity; eauto.
Qed.

Lemma select_video_returns env u w :
  exists r w',
    select_video env u w = (Ok r, w')
    /\ disk w' = disk w
    /\ (r = Next URL
        \/ (r = Next RESOLUTION
            /\ is_Some (video (user_data w'))
            /\ no_streams (streams (user_data w')) = false)).
Proof.
  unfold select_video. split_cases;
    do 2 eexists; (split; [reflexivity|]); split; try reflexivity; eauto.
Qed.

Lemma download_audio_returns env u w :
  exists w',
    download_audio env u w = (Ok (Next URL), w')
    /\ user_data w' = user_data w.
Proof.
  unfold download_audio. split_cases; eexists; split; reflexivity.
Qed.

Lemma download_video_returns env u w :
  exists r w',
    download_video env u w = (Ok r, w')
    /\ user_data w' = user_data w
    /\ (r = Next URL
        \/ (r = Next RESOLUTION
            /\ is_Some (video (user_data w))
            /\ no_streams (streams (user_data w)) = false)).
Proof.
  unfold download_video. split_cases;
    do 2 eexists; (split; [reflexivity|]); split; try reflexivity;
    try (left; reflexivity); right; rewrite ?Heqo; eauto.
Qed.

Lemma download_video_invalid env u w yt :
  video (user_data w) = Some yt ->
  no_streams (streams (user_data w)) = false ->
  resolution_of_command (text u) = None \/ resolution_of_command (text u) = Some EmptyString ->
  download_video env u w
  = (Ok (Next RESOLUTION), after w (disk w) [ReplyText InvalidResolutionCommand]).
Proof.
  intros Hv Hq Hres. unfold download_video. unfold_m.
  rewrite Hv, Hq. destruct Hres as [-> | ->]; reflexivity.
Qed.

Lemma download_video_unknown env u w yt q res :
  video (user_data w) = Some yt ->
  streams (user_data w) = Some q ->
  q <> [] ->
  resolution_of_command (text u) = Some res ->
  res <> EmptyString ->
  find_stream res q = None ->
  download_video env u w
  = (Ok (Next RESOLUTION), after w (disk w) [ReplyText (NoStreamFound res)]).
Proof.
  intros Hv Hq Hne Hres Hr Hnone. unfold download_video. unfold_m.
  assert (Hq' : no_streams (Some q) = false)
    by (destruct q; [now elim Hne | reflexivity]).
  rewrite Hv, Hq, Hq', Hres. destruct res; [congruence|].
  simpl. now rewrite Hnone.
Qed.

(** ** The dispatcher *)

Ltac open_table H :=
  unfold conv_handler.check_update, Telegram.first_match, conv_handler.states,
    conv_handler.entry_points, conv_handler.fallbacks, Telegram.CommandHandler,
    Telegram.MessageHandler in H;
  cbn [List.find fst snd] in H;
  repeat match type of H with
    | context [match ?x with _ => _ end] =>
        lazymatch x with
        | context [match _ with _ => _ end] => fail
        | _ => destruct x eqn:?
        end
    | context [if ?x then _ else _] =>
        lazymatch x with
        | context [match _ with _ => _ end] => fail
        | _ => destruct x eqn:?
        end
    end;
  cbn [fst snd] in H.

Lemma accepts_command command u :
  Telegram.accepts command u = true -> Telegram.Filters_command u = true.
Proof.
  unfold Telegram.accepts, Telegram.Filters_command.
  now destruct (Telegram.bot_command (text u)).
Qed.

(** A message is at most one command. *)
Lemma accepts_unique c c' u :
  Telegram.accepts c u = true -> Telegram.accepts c' u = true -> c = c'.
Proof.
  unfold Telegram.accepts.
  destruct (Telegram.bot_command (text u)) as [entity|]; [|discriminate].
  destruct (PyStr.split "@" entity ++ [bot_username u])%list as [|name [|mention l]];
    try discriminate.
  rewrite !andb_true_iff, !String.eqb_eq. intros [<- _] [<- _]. reflexivity.
Qed.

Lemma check_update_outside u cb :
  conv_handler.check_update None u = Some cb -> cb = start.
Proof. intros H. open_table H; congruence. Qed.

Lemma check_update_URL u cb :
  conv_handler.check_update (Some URL) u = Some cb ->
  cb = receive_url \/ cb = cancel.
Proof. intros H. open_table H; inversion H; auto. Qed.

Lemma check_update_FORMAT u cb :
  conv_handler.check_update (Some FORMAT) u = Some cb ->
  cb = select_video \/ cb = download_audio \/ cb = cancel.
Proof. intros H. open_table H; inversion H; auto. Qed.

(** While a resolution is awaited, every command goes to [download_video]:
    the handlers of the state are tried before the fallbacks, and
    [Filters.command] accepts any command. *)
Lemma check_update_RESOLUTION_command u :
  Telegram.Filters_command u = true ->
  conv_handler.check_update (Some RESOLUTION) u = Some download_video.
Proof.
  intros H. unfold conv_handler.check_update, Telegram.first_match,
    conv_handler.states, Telegram.MessageHandler.
  cbn [List.find fst snd]. now rewrite H.
Qed.

(** A message that is no command has no handler in that state: the only
    fallback is a command handler. *)
Lemma check_update_RESOLUTION_text u :
  Telegram.Filters_command u = false ->
  conv_handler.check_update (Some RESOLUTION) u = None.
Proof.
  intros H. unfold conv_handler.check_update, Telegram.first_match,
    conv_handler.states, conv_handler.fallbacks, Telegram.MessageHandler,
    Telegram.CommandHandler.
  cbn [List.find fst snd]. rewrite H. cbn [List.find fst snd].
  destruct (Telegram.accepts "cancel" u) eqn:E; [|reflexivity].
  apply accepts_command in E. congruence.
Qed.

Lemma check_update_RESOLUTION u cb :
  conv_handler.check_update (Some RESOLUTION) u = Some cb -> cb = download_video.
Proof.
  intros H. destruct (Telegram.Filters_command u) eqn:E.
  - rewrite check_update_RESOLUTION_command in H by assumption. congruence.
  - rewrite check_update_RESOLUTION_text in H by assumption. discriminate.
Qed.

(** ** The session in the reachable states *)

Lemma handle_update_session_ok env u b :
  session_ok b -> session_ok (handle_update env u b).
Proof.
  intros Hb. unfold handle_update.
  destruct (conv_handler.check_update (conv b) u) as [cb|] eqn:Hcb; [|exact Hb].
  destruct b as [[[| |]|] w]; cbn [conv world] in *.
  - apply check_update_URL in Hcb as [-> | ->].
    + destruct (receive_url_returns env u w) as (r & w' & -> & _ & [-> | [-> Hv]]);
        [exact I | exact Hv].
    + rewrite cancel_runs. reflexivity.
  - apply check_update_FORMAT in Hcb as [-> | [-> | ->]].
    + destruct (select_video_returns env u w) as (r & w' & -> & _ & [-> | [-> Hv]]);
        [exact I | exact Hv].
    + destruct (download_audio_returns env u w) as (w' & -> & _). exact I.
    + rewrite cancel_runs. reflexivity.
  - apply check_update_RESOLUTION in Hcb as ->.
    destruct (download_video_returns env u w) as (r & w' & -> & E & [-> | [-> Hv]]);
      [exact I|].
    unfold session_ok. cbn [conv world]. now rewrite E.
  - apply check_update_outside in Hcb as ->.
    rewrite start_runs. exact I.
Qed.

Lemma reachable_session_ok b : reachable b -> session_ok b.
Proof.
  induction 1 as [|env u b Hb IH]; [reflexivity|].
  now apply handle_update_session_ok.
Qed.

Lemma reachable_run inputs b : reachable b -> reachable (run inputs b).
Proof.
  revert b. induction inputs as [|[env u] inputs IH]; intros b Hb; [exact Hb|].
  apply IH. now constructor.
Qed.

Example at_resolution_state :
  conv (Demo.at_resolution Demo.videos) = Some RESOLUTION
  /\ streams (user_data (world (Demo.at_resolution Demo.videos)))
     = Some [Demo.v1080; Demo.v720]
  /\ elements (disk (world (Demo.at_resolution Demo.videos))) = [].
Proof. repeat split. Qed.


(** ** Scratch files *)

(** C1, on the code: the video is downloaded, the send raises, and the
    handler's [except] answers with the error without removing anything:
    the downloaded file is still in [downloads] when the handler has
    returned. *)
Theorem video_send_failure_leaves_file :
  let b := handle_update (Demo.env_send_fails Demo.videos) (Demo.msg "/res_720p")
             (Demo.at_resolution Demo.videos) in
  elements (disk (world (Demo.at_resolution Demo.videos))) = []
  /\ conv b = Some RESOLUTION
  /\ last (outbox (world b))
     = Some (ReplyText (ErrDownloadingVideo (Failure "timed out")))
  /\ elements (disk (world b)) = ["downloads/clip.mp4"].
Proof. repeat split. Qed.

(** C5, on the code: the raw audio is downloaded, ffmpeg raises, and the
    handler's [except] answers with the error without removing anything:
    the raw file is still in [downloads] when the error has been sent. *)
Theorem transcode_failure_leaves_raw_file :
  let b := handle_update (Demo.env_ffmpeg_fails [Demo.a_mp4]) (Demo.msg "/audio")
             (Demo.at_format [Demo.a_mp4]) in
  elements (disk (world (Demo.at_format [Demo.a_mp4]))) = []
  /\ conv b = Some URL
  /\ last (outbox (world b))
     = Some (ReplyText (ErrProcessingAudio (Failure "ffmpeg error")))
  /\ elements (disk (world b)) = ["downloads/clip.mp4"].
Proof. repeat split. Qed.

(** ** The size check in the two pipelines *)

(** An audio stream over the limit is fetched before it is refused. *)
Lemma audio_gate_counterexample :
  let b := handle_update (Demo.env_ok [Demo.a_big]) (Demo.msg "/audio")
             (Demo.at_format [Demo.a_big]) in
  over_50 (size_mb (filesize Demo.a_big)) = true
  /\ outbox (world b)
     = [ReplyText Welcome; ReplyText (GotIt "clip");
        Fetched Demo.a_big "downloads/clip.mp4";
        ReplyText (AudioTooLarge (size_mb (filesize Demo.a_big)));
        Removed "downloads/clip.mp4"].
Proof. split; reflexivity. Qed.

(** C3, as the code has it: the video pipeline checks the size before it
    fetches, so a refusal there fetches nothing and leaves the disk as it
    was; the audio pipeline fetches first and checks afterwards, and a
    refusal there removes the fetched file again, so that no file of it is
    left either. *)
Theorem size_gate_rejection :
  (forall env u w yt q res s,
      video (user_data w) = Some yt ->
      streams (user_data w) = Some q ->
      resolution_of_command (text u) = Some res ->
      res <> EmptyString ->
      find_stream res q = Some s ->
      over_50 (size_mb (filesize s)) = true ->
      download_video env u w
      = (Ok (Next RESOLUTION),
         after w (disk w) [ReplyText (VideoTooLarge (size_mb (filesize s)))]))
  /\ (forall env u w yt all s path,
        video (user_data w) = Some yt ->
        streams_of yt = Ok all ->
        first (List.filter only_audio all) = Some s ->
        fetch env s = Ok path ->
        over_50 (size_mb (filesize s)) = true ->
        exists w',
          download_audio env u w = (Ok (Next URL), w')
          /\ outbox w' = (outbox w ++ [Fetched s path;
                                       ReplyText (AudioTooLarge (size_mb (filesize s)));
                                       Removed path])%list
          /\ (path ∉ disk w')
          /\ (disk w' ⊆ disk w)).
Proof.
  split.
  - intros env u w yt q res s. apply download_video_too_large.
  - intros env u w yt all s path Hv Hall Hs Hfetch Hbig. eexists. split.
    + now apply (download_audio_too_large env u w yt all s path).
    + cbn [after outbox disk]. repeat split; set_solver.
Qed.

(** The video part on the session of scenario 2 ([/res_1080p], 60 MB), the
    audio part on a session that waits for a format and gets [/audio] for a
    60 MB audio stream. *)
Lemma size_gate_rejection_witness :
  download_video (Demo.env_ok Demo.videos) (Demo.msg "/res_1080p")
    (world (Demo.at_resolution Demo.videos))
  = (Ok (Next RESOLUTION),
     after (world (Demo.at_resolution Demo.videos))
       (disk (world (Demo.at_resolution Demo.videos)))
       [ReplyText (VideoTooLarge (size_mb (filesize Demo.v1080)))])
  /\ exists w',
      download_audio (Demo.env_ok [Demo.a_big]) (Demo.msg "/audio")
        (world (Demo.at_format [Demo.a_big])) = (Ok (Next URL), w')
      /\ outbox w'
         = (outbox (world (Demo.at_format [Demo.a_big]))
              ++ [Fetched Demo.a_big "downloads/clip.mp4";
                  ReplyText (AudioTooLarge (size_mb (filesize Demo.a_big)));
                  Removed "downloads/clip.mp4"])%list
      /\ ("downloads/clip.mp4" ∉ disk w')
      /\ (disk w' ⊆ disk (world (Demo.at_format [Demo.a_big]))).
Proof.
  split.
  - apply (proj1 size_gate_rejection (Demo.env_ok Demo.videos)
             (Demo.msg "/res_1080p") (world (Demo.at_resolution Demo.videos))
             (Demo.media Demo.videos) [Demo.v1080; Demo.v720] "1080p" Demo.v1080);
      try reflexivity.
    discriminate.
  - apply (proj2 size_gate_rejection (Demo.env_ok [Demo.a_big])
             (Demo.msg "/audio") (world (Demo.at_format [Demo.a_big]))
             (Demo.media [Demo.a_big]) [Demo.a_big] Demo.a_big
             "downloads/clip.mp4"); reflexivity.
Defined.

(** ** The state after a resolution command *)

(** The download raises, or the send does: the session still waits for a
    resolution. *)
Lemma next_state_counterexample :
  conv (handle_update (Demo.env_fetch_fails Demo.videos) (Demo.msg "/res_720p")
          (Demo.at_resolution Demo.videos)) = Some RESOLUTION
  /\ conv (handle_update (Demo.env_send_fails Demo.videos) (Demo.msg "/res_720p")
             (Demo.at_resolution Demo.videos)) = Some RESOLUTION
  /\ Some RESOLUTION <> Some URL.
Proof. repeat split. discriminate. Qed.

(** C6, as the code has it: with the video and a catalog in the session,
    [download_video] returns [URL] exactly when the command names a stream of
    the catalog, the stream passes the size check, the download succeeds and
    the send succeeds; in every other case, a failed download or send among
    them, it returns [RESOLUTION]. *)
Theorem download_video_next_state env u w yt q :
  video (user_data w) = Some yt ->
  streams (user_data w) = Some q ->
  q <> [] ->
  fst (download_video env u w)
  = Ok (Next (if delivers env u q then URL else RESOLUTION)).
Proof.
  intros Hv Hq Hne. unfold delivers.
  assert (Hq' : no_streams (streams (user_data w)) = false)
    by (rewrite Hq; destruct q; [now elim Hne | reflexivity]).
  destruct (resolution_of_command (text u)) as [[|a r]|] eqn:Hres;
    try (rewrite (download_video_invalid env u w yt); now auto).
  assert (Hr : String a r <> EmptyString) by discriminate.
  destruct (find_stream (String a r) q) as [s|] eqn:Hs.
  2: { rewrite (download_video_unknown env u w yt q (String a r)); auto. }
  destruct (over_50 (size_mb (filesize s))) eqn:Hbig; cbn [negb andb].
  { rewrite (download_video_too_large env u w yt q (String a r) s); auto. }
  destruct (fetch env s) as [path|e] eqn:Hf.
  2: { now rewrite (download_video_fetch_fails env u w yt q (String a r) s
                      Hv Hq Hres Hr Hs Hbig e Hf). }
  destruct (send_video env path) as [[]|e] eqn:Hsend.
  - now rewrite (download_video_success env u w yt q (String a r) s
                   Hv Hq Hres Hr Hs Hbig path Hf Hsend).
  - now rewrite (download_video_send_fails env u w yt q (String a r) s
                   Hv Hq Hres Hr Hs Hbig path e Hf Hsend).
Qed.

Lemma download_video_next_state_witness :
  fst (download_video (Demo.env_fetch_fails Demo.videos) (Demo.msg "/res_720p")
         (world (Demo.at_resolution Demo.videos)))
  = Ok (Next (if delivers (Demo.env_fetch_fails Demo.videos) (Demo.msg "/res_720p")
                   [Demo.v1080; Demo.v720]
              then URL else RESOLUTION)).
Proof.
  apply (download_video_next_state (Demo.env_fetch_fails Demo.videos)
           (Demo.msg "/res_720p") (world (Demo.at_resolution Demo.videos))
           (Demo.media Demo.videos) [Demo.v1080; Demo.v720]).
  - reflexivity.
  - reflexivity.
  - discriminate.
Defined.

(** ** Commands while a resolution is awaited *)

(** A command without an underscore, sent while a resolution is awaited,
    is answered with the guidance on resolution commands and changes
    nothing else. *)
Lemma command_without_underscore env u b :
  session_ok b ->
  conv b = Some RESOLUTION ->
  Telegram.Filters_command u = true ->
  PyStr.contains_char "_" (text u) = false ->
  handle_update env u b
  = {| conv := Some RESOLUTION;
       world := after (world b) (disk (world b)) [ReplyText InvalidResolutionCommand] |}.
Proof.
  intros Hok Hconv Hcmd Hno. unfold handle_update, session_ok in *.
  rewrite Hconv in *. rewrite (check_update_RESOLUTION_command u Hcmd).
  destruct Hok as [[yt Hv] Hq].
  rewrite (download_video_invalid env u (world b) yt Hv Hq); [reflexivity|].
  left. now apply resolution_of_command_none.
Qed.

Example foo_720p_selects_720p :
  let b := handle_update (Demo.env_ok Demo.videos) (Demo.msg "/foo_720p")
             (Demo.at_resolution Demo.videos) in
  conv b = Some URL
  /\ outbox (world b)
     = [ReplyText Welcome; ReplyText (GotIt "clip");
        ReplyText (AvailableResolutions (listing_from 1 [Demo.v1080; Demo.v720]));
        Fetched Demo.v720 "downloads/clip.mp4";
        ReplyText (DownloadedSending "720p"); SentVideo "downloads/clip.mp4";
        Removed "downloads/clip.mp4"; ReplyText Done].
Proof. split; reflexivity. Qed.

(** ** Cancelling *)

Lemma cancel_while_url_awaited env b :
  conv b = Some URL ->
  handle_update env (Demo.msg "/cancel") b
  = {| conv := None;
       world := {| user_data := cleared; disk := disk (world b);
                   outbox := outbox (world b) ++ [ReplyText OperationCancelled] |} |}.
Proof. intros H. unfold handle_update. rewrite H. reflexivity. Qed.

Lemma cancel_while_format_awaited env b :
  conv b = Some FORMAT ->
  handle_update env (Demo.msg "/cancel") b
  = {| conv := None;
       world := {| user_data := cleared; disk := disk (world b);
                   outbox := outbox (world b) ++ [ReplyText OperationCancelled] |} |}.
Proof. intros H. unfold handle_update. rewrite H. reflexivity. Qed.

(** C8, on the code: while a resolution is awaited, [/cancel] is a command
    like any other and goes to [download_video], which finds no underscore
    in it: the session keeps its video and its catalog and still waits for a
    resolution, and the reply is the guidance on resolution commands. *)
Theorem cancel_while_resolution_awaited env b :
  reachable b ->
  conv b = Some RESOLUTION ->
  handle_update env (Demo.msg "/cancel") b
  = {| conv := Some RESOLUTION;
       world := after (world b) (disk (world b)) [ReplyText InvalidResolutionCommand] |}.
Proof.
  intros Hb Hconv. apply command_without_underscore; try reflexivity.
  - now apply reachable_session_ok.
  - exact Hconv.
Qed.

Lemma cancel_while_resolution_awaited_witness :
  let b := handle_update (Demo.env_ok Demo.videos) (Demo.msg "/cancel")
             (Demo.at_resolution Demo.videos) in
  conv b = Some RESOLUTION
  /\ streams (user_data (world b)) = Some [Demo.v1080; Demo.v720]
  /\ last (outbox (world b)) = Some (ReplyText InvalidResolutionCommand).
Proof.
  intros b. subst b.
  rewrite (cancel_while_resolution_awaited (Demo.env_ok Demo.videos)
             (Demo.at_resolution Demo.videos)).
  - repeat split.
  - apply reachable_run. constructor.
  - reflexivity.
Defined.

(** ** The MP3 path *)

(** A path with two occurrences of [.mp4]: the code replaces both, the first
    occurrence alone would give another path. *)
Lemma mp3_path_counterexample :
  mp3_path_of "/srv/bot.mp4/downloads/clip.mp4" = "/srv/bot.mp3/downloads/clip.mp3"
  /\ Spec.replace_first ".mp4" ".mp3" "/srv/bot.mp4/downloads/clip.mp4"
     = "/srv/bot.mp3/downloads/clip.mp4"
  /\ mp3_path_of "/srv/bot.mp4/downloads/clip.mp4"
     <> Spec.replace_first ".mp4" ".mp3" "/srv/bot.mp4/downloads/clip.mp4".
Proof. repeat split. discriminate. Qed.

(** C10, as the code has it: the MP3 path is the downloaded path with every
    occurrence of [.mp4] replaced by [.mp3], from left to right; a path
    without [.mp4] is its own MP3 path, and then, when conversion and send
    succeed, the first [os.remove] deletes the file and the second one raises:
    the handler ends in its [except] branch, with the file gone. *)
Theorem mp3_path_every_occurrence :
  (forall a b,
      PyStr.contains ".mp4" (a +:+ ".mp") = false ->
      mp3_path_of (a +:+ ".mp4" +:+ b) = a +:+ ".mp3" +:+ mp3_path_of b)
  /\ (forall env u w yt all s path,
        video (user_data w) = Some yt ->
        streams_of yt = Ok all ->
        first (List.filter only_audio all) = Some s ->
        fetch env s = Ok path ->
        over_50 (size_mb (filesize s)) = false ->
        PyStr.contains ".mp4" path = false ->
        ffmpeg_run env path path = Ok tt ->
        send_audio env path = Ok tt ->
        mp3_path_of path = path
        /\ exists w',
            download_audio env u w = (Ok (Next URL), w')
            /\ outbox w'
               = (outbox w ++ [Fetched s path; Transcoded path path; SentAudio path;
                               Removed path;
                               ReplyText (ErrProcessingAudio (FileNotFoundError path))])%list
            /\ (path ∉ disk w')).
Proof.
  split; [apply mp3_path_of_occurrence|].
  intros env u w yt all s path Hv Hall Hs Hf Hsmall Hno Hff Hsend.
  pose proof (mp3_path_of_same path Hno) as Heq. split; [exact Heq|].
  eexists. split.
  - apply (download_audio_same_path env u w yt all s path); congruence.
  - cbn [after outbox disk]. split; [reflexivity | set_solver].
Qed.

Lemma mp3_path_every_occurrence_witness :
  mp3_path_of ("/srv/bot" +:+ ".mp4" +:+ "/downloads/clip.mp4")
  = "/srv/bot" +:+ ".mp3" +:+ mp3_path_of "/downloads/clip.mp4"
  /\ mp3_path_of "downloads/clip.webm" = "downloads/clip.webm"
  /\ exists w',
      download_audio (Demo.env_ok [Demo.a_webm]) (Demo.msg "/audio")
        (world (Demo.at_format [Demo.a_webm])) = (Ok (Next URL), w')
      /\ outbox w'
         = (outbox (world (Demo.at_format [Demo.a_webm]))
              ++ [Fetched Demo.a_webm "downloads/clip.webm";
                  Transcoded "downloads/clip.webm" "downloads/clip.webm";
                  SentAudio "downloads/clip.webm"; Removed "downloads/clip.webm";
                  ReplyText (ErrProcessingAudio (FileNotFoundError "downloads/clip.webm"))])%list
      /\ ("downloads/clip.webm" ∉ disk w').
Proof.
  split.
  - apply (proj1 mp3_path_every_occurrence "/srv/bot" "/downloads/clip.mp4").
    reflexivity.
  - apply (proj2 mp3_path_every_occurrence (Demo.env_ok [Demo.a_webm])
             (Demo.msg "/audio") (world (Demo.at_format [Demo.a_webm]))
             (Demo.media [Demo.a_webm]) [Demo.a_webm] Demo.a_webm
             "downloads/clip.webm"); reflexivity.
Defined.

(** * Further properties of the handlers *)

(** ** Resolution commands *)

Lemma split_aux_last_inv sep cur s t :
  last (PyStr.split_aux sep cur s) = Some t ->
  (PyStr.contains_char sep s = false /\ t = string_of_list_ascii (rev cur) +:+ s)
  \/ (exists pre, s = pre +:+ String sep t /\ PyStr.contains_char sep t = false).
Proof.
  revert cur. induction s as [|a s IH]; intros cur H; cbn [PyStr.split_aux] in H.
  - left. split; [reflexivity|]. rewrite string_app_empty.
    rewrite last_singleton in H. congruence.
  - cbn [PyStr.contains_char]. destruct (Ascii.eqb a sep) eqn:E.
    + apply Ascii.eqb_eq in E. subst a. right.
      rewrite last_cons in H.
      destruct (last (PyStr.split_aux sep [] s)) as [t'|] eqn:Hl.
      2: { apply last_None in Hl. now apply split_aux_nonempty in Hl. }
      injection H as ->.
      destruct (IH [] Hl) as [[Hno ->] | (pre & -> & Hno)].
      * exists EmptyString. split; [reflexivity | exact Hno].
      * exists (String sep pre). split; [reflexivity | exact Hno].
    + destruct (IH (a :: cur) H) as [[Hno ->] | (pre & -> & Hno)].
      * left. split; [exact Hno|]. simpl. apply string_of_snoc.
      * right. exists (String a pre). split; [reflexivity | exact Hno].
Qed.

(** X1: a tag read from a command has no underscore in it, and the command
    is some text, an underscore and the tag: a resolution whose label holds
    an underscore cannot be asked for. *)
Theorem resolution_of_command_inverse command tag :
  resolution_of_command command = Some tag ->
  PyStr.contains_char "_" tag = false
  /\ exists pre, command = pre +:+ String "_" tag.
Proof.
  unfold resolution_of_command, PyStr.last_item, PyStr.split.
  destruct (PyStr.contains_char "_" command) eqn:E; [|discriminate].
  intros H. apply split_aux_last_inv in H as [[Hno _] | (pre & -> & Hno)].
  - congruence.
  - split; [exact Hno | now exists pre].
Qed.

Lemma resolution_of_command_inverse_witness :
  PyStr.contains_char "_" "1080p" = false
  /\ exists pre, "/res_1080p" = pre +:+ String "_" "1080p".
Proof.
  apply (resolution_of_command_inverse "/res_1080p" "1080p"). reflexivity.
Defined.

(** X2: a command that ends in an underscore has the empty tag, which
    [download_video] treats like a missing one: while a resolution is
    awaited, with the video and a catalog in the session, it is answered
    with the guidance on resolution commands, and nothing else changes. *)
Theorem trailing_underscore_is_invalid env u b yt pre :
  conv b = Some RESOLUTION ->
  video (user_data (world b)) = Some yt ->
  no_streams (streams (user_data (world b))) = false ->
  Telegram.Filters_command u = true ->
  text u = pre +:+ "_" ->
  resolution_of_command (text u) = Some EmptyString
  /\ handle_update env u b
     = {| conv := Some RESOLUTION;
          world := after (world b) (disk (world b))
                     [ReplyText InvalidResolutionCommand] |}.
Proof.
  intros Hconv Hv Hq Hcmd Htext.
  assert (Hres : resolution_of_command (text u) = Some EmptyString)
    by (rewrite Htext; now apply resolution_of_command_last).
  split; [exact Hres|].
  unfold handle_update. rewrite Hconv.
  rewrite (check_update_RESOLUTION_command u Hcmd).
  rewrite (download_video_invalid env u (world b) yt Hv Hq); auto.
Qed.

Lemma trailing_underscore_is_invalid_witness :
  resolution_of_command (text (Demo.msg "/res_")) = Some EmptyString
  /\ handle_update (Demo.env_ok Demo.videos) (Demo.msg "/res_")
       (Demo.at_resolution Demo.videos)
     = {| conv := Some RESOLUTION;
          world := after (world (Demo.at_resolution Demo.videos))
                     (disk (world (Demo.at_resolution Demo.videos)))
                     [ReplyText InvalidResolutionCommand] |}.
Proof.
  apply (trailing_underscore_is_invalid (Demo.env_ok Demo.videos)
           (Demo.msg "/res_") (Demo.at_resolution Demo.videos)
           (Demo.media Demo.videos) "/res");
    reflexivity.
Defined.

(** ** The MP3 path, again *)

Lemma startswith_mp4 s :
  PyStr.startswith ".mp4" s = true -> exists r, s = ".mp4" +:+ r.
Proof.
  destruct s as [|c1 [|c2 [|c3 [|c4 r]]]]; cbn [PyStr.startswith];
    rewrite ?andb_false_r; try discriminate.
  rewrite !andb_true_iff, !Ascii.eqb_eq. intros (<- & <- & <- & <- & _).
  now exists r.
Qed.

Lemma mp3_path_of_differs file_path :
  PyStr.contains ".mp4" file_path = true -> mp3_path_of file_path <> file_path.
Proof.
  unfold mp3_path_of. induction file_path as [|a s IH]; [discriminate|].
  cbn [PyStr.contains]. rewrite replace_unfold.
  destruct (PyStr.startswith ".mp4" (String a s)) eqn:E.
  - intros _ H. apply startswith_mp4 in E as [r E]. rewrite E in H.
    cbv [String.append] in H. congruence.
  - cbn [orb]. intros Hc H. apply IH; [exact Hc | congruence].
Qed.

(** X3: the MP3 path is the downloaded path itself exactly when the
    downloaded path has no [.mp4] in it; for every other path the conversion
    writes another file than the one it reads. *)
Theorem mp3_path_same_iff file_path :
  mp3_path_of file_path = file_path <-> PyStr.contains ".mp4" file_path = false.
Proof.
  split; [|apply mp3_path_of_same].
  intros H. destruct (PyStr.contains ".mp4" file_path) eqn:E; [|reflexivity].
  now apply mp3_path_of_differs in E.
Qed.

(** ** The catalog, again *)

Lemma catalog_of_perm all : Permutation (catalog_of all) (eligible all).
Proof.
  unfold catalog_of, desc, order_by_resolution. fold (eligible all).
  rewrite <- Permutation_rev.
  destruct (forallb has_digits (eligible all)); apply sorted_by_perm.
Qed.

(** X4: whatever the labels look like, the catalog holds exactly the
    progressive MP4 streams that have a resolution, each as often as the
    provider lists it: no stream is dropped for its size, none is added, and
    streams with the same label are not merged. *)
Theorem catalog_members all :
  Permutation (catalog_of all) (eligible all)
  /\ length (catalog_of all) = length (eligible all)
  /\ (forall s, In s (catalog_of all)
                <-> In s all /\ progressive_mp4 s = true /\ has_resolution s = true).
Proof.
  pose proof (catalog_of_perm all) as P. split; [exact P|]. split.
  - now apply Permutation_length.
  - intros s. split.
    + intros H. apply (Permutation_in _ P) in H. unfold eligible in H.
      apply List.filter_In in H as [H Hr]. apply List.filter_In in H as [H Hp].
      auto.
    + intros (H & Hp & Hr). apply (Permutation_in _ (Permutation_sym P)).
      unfold eligible. apply List.filter_In. split; [|exact Hr].
      apply List.filter_In. auto.
Qed.

Lemma find_head_filter {A} (p : A -> bool) l :
  List.find p l = head (List.filter p l).
Proof.
  induction l as [|x l IH]; [reflexivity|].
  simpl. destruct (p x); [reflexivity | exact IH].
Qed.

Lemma head_rev {A} (l : list A) : head (rev l) = last l.
Proof.
  induction l as [|x l IH] using rev_ind; [reflexivity|].
  rewrite rev_app_distr, last_snoc. reflexivity.
Qed.

Lemma filter_filter_imp {A} (p q : A -> bool) l :
  (forall x, p x = true -> q x = true) ->
  List.filter p (List.filter q l) = List.filter p l.
Proof.
  intros Hpq. induction l as [|x l IH]; [reflexivity|].
  simpl. destruct (q x) eqn:Hq; simpl.
  - now rewrite IH.
  - destruct (p x) eqn:Hp; [|exact IH].
    apply Hpq in Hp. congruence.
Qed.

(** The streams with the label [res]. *)
Lemma labelled_sorted_by {K} `{EqDecision K} (key : Stream -> K) leb res k l :
  (forall a b, leb a b = true \/ leb b a = true) ->
  (forall s, resolution s = Some res -> key s = k) ->
  List.filter (fun s => bool_decide (resolution s = Some res)) (sorted_by key leb l)
  = List.filter (fun s => bool_decide (resolution s = Some res)) l.
Proof.
  intros Htotal Hkey.
  assert (Himp : forall x,
             bool_decide (resolution x = Some res) = true ->
             in_class key k x = true).
  { intros x Hx. apply bool_decide_eq_true in Hx.
    apply bool_decide_eq_true. now apply Hkey. }
  rewrite <- (filter_filter_imp _ (in_class key k) (sorted_by key leb l) Himp).
  rewrite (sorted_by_class key leb Htotal).
  now apply filter_filter_imp.
Qed.

Lemma labelled_order_by res l :
  List.filter (fun s => bool_decide (resolution s = Some res)) (order_by_resolution l)
  = List.filter (fun s => bool_decide (resolution s = Some res)) l.
Proof.
  unfold order_by_resolution.
  destruct (forallb has_digits (List.filter has_resolution l)).
  - rewrite (labelled_sorted_by resolution_int N.leb res
               (PyStr.int_of_digits
                  (List.filter PyStr.isdigit (list_ascii_of_string res)))).
    + apply filter_filter_imp. intros x Hx. apply bool_decide_eq_true in Hx.
      unfold has_resolution. now rewrite Hx.
    + apply N_leb_total.
    + intros s Hs. unfold resolution_int, resolution_digits. now rewrite Hs.
  - rewrite (labelled_sorted_by resolution_label String.leb res res).
    + apply filter_filter_imp. intros x Hx. apply bool_decide_eq_true in Hx.
      unfold has_resolution. now rewrite Hx.
    + apply String.leb_total.
    + intros s Hs. unfold resolution_label. now rewrite Hs.
Qed.

(** X5: the stream a resolution command picks from the catalog is the last
    progressive MP4 stream with that label in the provider's order; when
    the provider lists several streams under one label, the earlier ones
    cannot be picked by any command. *)
Theorem picked_stream_is_last_of_label res all :
  find_stream res (catalog_of all)
  = last (List.filter (fun s => bool_decide (resolution s = Some res))
            (List.filter progressive_mp4 all)).
Proof.
  unfold find_stream, catalog_of, desc.
  rewrite find_head_filter, List.filter_rev, head_rev.
  now rewrite labelled_order_by.
Qed.

Example picked_among_two_720p :
  find_stream "720p" (catalog_of [Demo.v720_60; Demo.v1080; Demo.v720])
  = Some Demo.v720.
Proof. reflexivity. Qed.

(** ** What [receive_url] and [select_video] change *)

(** X6: [receive_url] never touches the disk or the catalog and sends
    exactly one reply.  It returns [FORMAT] when the video resolves and its
    title can be read, and [URL] otherwise; once the video has resolved it is
    in the session, also when reading the title raised and the state stays
    [URL]. *)
Theorem receive_url_outcome env u w :
  disk (snd (receive_url env u w)) = disk w
  /\ streams (user_data (snd (receive_url env u w))) = streams (user_data w)
  /\ (exists r, outbox (snd (receive_url env u w)) = (outbox w ++ [ReplyText r])%list)
  /\ match resolve env (text u) with
     | Raise e =>
         fst (receive_url env u w) = Ok (Next URL)
         /\ user_data (snd (receive_url env u w)) = user_data w
     | Ok yt =>
         video (user_data (snd (receive_url env u w))) = Some yt
         /\ fst (receive_url env u w)
            = Ok (Next (match title yt with Ok _ => FORMAT | Raise _ => URL end))
     end.
Proof.
  unfold receive_url. unfold_m.
  destruct (resolve env (text u)) as [yt|e]; [destruct (title yt)|];
    cbn [fst snd user_data disk outbox video streams]; eauto 10.
Qed.

(** X7: [select_video] never touches the disk or the video in the session
    and sends exactly one reply.  Without a video, with unreadable streams or
    with an empty catalog it returns [URL] and leaves the session as it was,
    an older catalog included.  With a catalog that is not empty it stores
    the catalog, and returns [RESOLUTION] when the size of every stream in
    it can be read; when reading a size raises it returns [URL], with the
    new catalog stored. *)
Theorem select_video_outcome env u w :
  disk (snd (select_video env u w)) = disk w
  /\ video (user_data (snd (select_video env u w))) = video (user_data w)
  /\ (exists r, outbox (snd (select_video env u w)) = (outbox w ++ [ReplyText r])%list)
  /\ match video (user_data w) with
     | None =>
         fst (select_video env u w) = Ok (Next URL)
         /\ user_data (snd (select_video env u w)) = user_data w
     | Some yt =>
         match streams_of yt with
         | Raise _ =>
             fst (select_video env u w) = Ok (Next URL)
             /\ user_data (snd (select_video env u w)) = user_data w
         | Ok all =>
             match catalog_of all with
             | [] =>
                 fst (select_video env u w) = Ok (Next URL)
                 /\ user_data (snd (select_video env u w)) = user_data w
             | _ :: _ =>
                 streams (user_data (snd (select_video env u w)))
                 = Some (catalog_of all)
                 /\ fst (select_video env u w)
                    = Ok (Next (match read_sizes env (catalog_of all) with
                                | Ok _ => RESOLUTION
                                | Raise _ => URL
                                end))
             end
         end
     end.
Proof.
  unfold select_video. unfold_m.
  destruct (video (user_data w)) as [yt|] eqn:Hv;
    [destruct (streams_of yt) as [all|e] eqn:Hall;
     [destruct (catalog_of all) as [|s q] eqn:Hcat;
      [|destruct (read_sizes env (s :: q))]|]|];
    cbn [fst snd user_data disk outbox video streams];
    (split; [reflexivity|split; [congruence|split; [eauto|]]]);
    split; reflexivity.
Qed.

Example select_video_size_fails :
  let b := handle_update (Demo.env_size_fails Demo.videos) (Demo.msg "/video")
             (Demo.at_format Demo.videos) in
  conv b = Some URL
  /\ streams (user_data (world b)) = Some [Demo.v1080; Demo.v720]
  /\ last (outbox (world b))
     = Some (ReplyText (ErrFetchingStreams (Failure "HTTP Error 403"))).
Proof. repeat split. Qed.

(** ** The conversation as a state machine *)

(** X8: the steps of the conversation.  Outside a conversation an update
    starts one or does nothing; a format is awaited only after a URL; a
    resolution is awaited only after a format; and while a resolution is
    awaited no update ends the conversation or goes back to the format: the
    only way on is the return to [URL]. *)
Theorem conversation_steps env u b :
  may_follow (conv b) (conv (handle_update env u b)) = true.
Proof.
  unfold handle_update.
  destruct (conv_handler.check_update (conv b) u) as [cb|] eqn:Hcb.
  2: { now destruct (conv b) as [[| |]|]. }
  destruct b as [[[| |]|] w]; cbn [conv world] in *.
  - apply check_update_URL in Hcb as [-> | ->].
    + now destruct (receive_url_returns env u w) as (r & w' & -> & _ & [-> | [-> _]]).
    + now rewrite cancel_runs.
  - apply check_update_FORMAT in Hcb as [-> | [-> | ->]].
    + now destruct (select_video_returns env u w) as (r & w' & -> & _ & [-> | [-> _]]).
    + now destruct (download_audio_returns env u w) as (w' & -> & _).
    + now rewrite cancel_runs.
  - apply check_update_RESOLUTION in Hcb as ->.
    now destruct (download_video_returns env u w) as (r & w' & -> & _ & [-> | [-> _]]).
  - apply check_update_outside in Hcb as ->. now rewrite start_runs.
Qed.

Lemma check_update_cancel s u :
  commands "cancel" u = true ->
  s = URL \/ s = FORMAT ->
  conv_handler.check_update (Some s) u = Some cancel.
Proof.
  unfold commands. intros H Hs.
  pose proof (accepts_command _ _ H) as Hcmd.
  assert (Hv : Telegram.accepts "video" u = false).
  { destruct (Telegram.accepts "video" u) eqn:E; [|reflexivity].
    discriminate (accepts_unique _ _ _ E H). }
  assert (Ha : Telegram.accepts "audio" u = false).
  { destruct (Telegram.accepts "audio" u) eqn:E; [|reflexivity].
    discriminate (accepts_unique _ _ _ E H). }
  unfold conv_handler.check_update, Telegram.first_match, conv_handler.states,
    conv_handler.fallbacks, Telegram.CommandHandler, Telegram.MessageHandler.
  destruct Hs as [-> | ->]; cbn [List.find fst snd];
    rewrite ?Hcmd, ?Hv, ?Ha, ?andb_false_r; cbn [List.find fst snd negb];
    rewrite H; reflexivity.
Qed.

(** X9: while a URL or a format is awaited, every message that starts with
    the cancel command, in any case, addressed to no bot or to this one and
    with anything behind it, empties the session and ends the conversation
    with one reply; the files in [downloads] stay as they are.  (A command
    addressed to another bot is not the cancel command.) *)
Theorem cancel_ends_conversation env u b :
  commands "cancel" u = true ->
  conv b = Some URL \/ conv b = Some FORMAT ->
  handle_update env u b
  = {| conv := None;
       world := {| user_data := cleared; disk := disk (world b);
                   outbox := outbox (world b) ++ [ReplyText OperationCancelled] |} |}.
Proof.
  intros Hc Hs. unfold handle_update.
  destruct (conv b) as [s|] eqn:E; [|destruct Hs; discriminate].
  rewrite (check_update_cancel s u Hc); [reflexivity|].
  destruct Hs as [[= ->] | [= ->]]; auto.
Qed.

Lemma cancel_ends_conversation_witness :
  handle_update (Demo.env_ok Demo.videos) (Demo.msg "/Cancel please")
    (Demo.at_format Demo.videos)
  = {| conv := None;
       world := {| user_data := cleared;
                   disk := disk (world (Demo.at_format Demo.videos));
                   outbox := outbox (world (Demo.at_format Demo.videos))
                             ++ [ReplyText OperationCancelled] |} |}.
Proof.
  apply (cancel_ends_conversation (Demo.env_ok Demo.videos)
           (Demo.msg "/Cancel please") (Demo.at_format Demo.videos)).
  - reflexivity.
  - right. reflexivity.
Defined.

(** ** Answered and unanswered updates *)

Ltac find_reply :=
  cbn [snd outbox]; rewrite <- ?app_assoc; cbn [app];
  do 2 eexists; split; [reflexivity|];
  cbn [In]; repeat first [left; reflexivity | right].

Lemma start_answers env u w :
  exists r evs, outbox (snd (start env u w)) = (outbox w ++ evs)%list
                /\ In (ReplyText r) evs.
Proof. unfold start. unfold_m. find_reply. Qed.

Lemma cancel_answers env u w :
  exists r evs, outbox (snd (cancel env u w)) = (outbox w ++ evs)%list
                /\ In (ReplyText r) evs.
Proof. unfold cancel. unfold_m. find_reply. Qed.

Lemma receive_url_answers env u w :
  exists r evs, outbox (snd (receive_url env u w)) = (outbox w ++ evs)%list
                /\ In (ReplyText r) evs.
Proof. unfold receive_url. split_cases; find_reply. Qed.

Lemma select_video_answers env u w :
  exists r evs, outbox (snd (select_video env u w)) = (outbox w ++ evs)%list
                /\ In (ReplyText r) evs.
Proof. unfold select_video. split_cases; find_reply. Qed.

Lemma download_video_answers env u w :
  exists r evs, outbox (snd (download_video env u w)) = (outbox w ++ evs)%list
                /\ In (ReplyText r) evs.
Proof. unfold download_video. split_cases; find_reply. Qed.

Lemma download_audio_answers env u w :
  exists r evs, outbox (snd (download_audio env u w)) = (outbox w ++ evs)%list
                /\ In (ReplyText r) evs.
Proof. unfold download_audio. split_cases; find_reply. Qed.

Lemma check_update_unanswered s u :
  conv_handler.check_update s u = None <-> unanswered s u = true.
Proof.
  unfold conv_handler.check_update, Telegram.first_match, conv_handler.states,
    conv_handler.entry_points, conv_handler.fallbacks, Telegram.CommandHandler,
    Telegram.MessageHandler, unanswered, commands.
  pose proof (accepts_command "cancel" u) as Hc.
  destruct s as [[| |]|]; cbn [List.find fst snd];
    repeat match goal with
      | |- context [Telegram.accepts ?c u] => destruct (Telegram.accepts c u)
      | |- context [Telegram.Filters_text u] => destruct (Telegram.Filters_text u)
      | |- context [Telegram.Filters_command u] =>
          destruct (Telegram.Filters_command u)
      end;
    cbn; split; try congruence; try (specialize (Hc eq_refl); congruence).
Qed.

Lemma table_handlers s u cb :
  conv_handler.check_update s u = Some cb ->
  cb = start \/ cb = receive_url \/ cb = select_video
  \/ cb = download_audio \/ cb = download_video \/ cb = cancel.
Proof.
  intros H. destruct s as [[| |]|].
  - apply check_update_URL in H. tauto.
  - apply check_update_FORMAT in H. tauto.
  - apply check_update_RESOLUTION in H. tauto.
  - apply check_update_outside in H. tauto.
Qed.

Lemma table_handler_returns s u cb env u' w :
  conv_handler.check_update s u = Some cb ->
  exists r w', cb env u' w = (Ok r, w').
Proof.
  intros H. apply table_handlers in H as [-> | [-> | [-> | [-> | [-> | ->]]]]].
  - rewrite start_runs. eauto.
  - destruct (receive_url_returns env u' w) as (r & w' & -> & _). eauto.
  - destruct (select_video_returns env u' w) as (r & w' & -> & _). eauto.
  - destruct (download_audio_returns env u' w) as (w' & -> & _). eauto.
  - destruct (download_video_returns env u' w) as (r & w' & -> & _). eauto.
  - rewrite cancel_runs. eauto.
Qed.

Lemma table_handler_answers s u cb env u' w :
  conv_handler.check_update s u = Some cb ->
  exists r evs, outbox (snd (cb env u' w)) = (outbox w ++ evs)%list
                /\ In (ReplyText r) evs.
Proof.
  intros H. apply table_handlers in H as [-> | [-> | [-> | [-> | [-> | ->]]]]].
  - apply start_answers.
  - apply receive_url_answers.
  - apply select_video_answers.
  - apply download_audio_answers.
  - apply download_video_answers.
  - apply cancel_answers.
Qed.

(** The bot after an update that has a handler. *)
Lemma handle_update_handled env u b cb :
  conv_handler.check_update (conv b) u = Some cb ->
  exists r,
    cb env u (world b) = (Ok r, world (handle_update env u b))
    /\ conv (handle_update env u b)
       = match r with Next s => Some s | END => None end.
Proof.
  intros H. unfold handle_update. rewrite H.
  destruct (table_handler_returns _ _ _ env u (world b) H) as (r & w' & ->).
  exists r. now destruct r.
Qed.

(** X10: an update the table has no handler for changes nothing and gets
    no reply, not even a guidance; every other update gets at least one
    reply. *)
Theorem unanswered_updates env u b :
  (unanswered (conv b) u = true -> handle_update env u b = b)
  /\ (unanswered (conv b) u = false ->
      exists r evs,
        outbox (world (handle_update env u b)) = (outbox (world b) ++ evs)%list
        /\ In (ReplyText r) evs).
Proof.
  split; intros H.
  - apply check_update_unanswered in H. unfold handle_update. now rewrite H.
  - destruct (conv_handler.check_update (conv b) u) as [cb|] eqn:Hcb.
    + destruct (handle_update_handled env u b cb Hcb) as (r & E & _).
      destruct (table_handler_answers _ _ _ env u (world b) Hcb) as (rp & evs & Ho & Hin).
      rewrite E in Ho. eauto.
    + apply check_update_unanswered in Hcb. congruence.
Qed.

Lemma unanswered_updates_witness :
  handle_update (Demo.env_ok Demo.videos) (Demo.msg "720p")
    (Demo.at_resolution Demo.videos)
  = Demo.at_resolution Demo.videos
  /\ exists r evs,
      outbox (world (handle_update (Demo.env_ok Demo.videos) (Demo.msg "/start")
                       (Demo.at_resolution Demo.videos)))
      = (outbox (world (Demo.at_resolution Demo.videos)) ++ evs)%list
      /\ In (ReplyText r) evs.
Proof.
  split.
  - apply (proj1 (unanswered_updates (Demo.env_ok Demo.videos) (Demo.msg "720p")
                    (Demo.at_resolution Demo.videos))).
    reflexivity.
  - apply (proj2 (unanswered_updates (Demo.env_ok Demo.videos) (Demo.msg "/start")
                    (Demo.at_resolution Demo.videos))).
    reflexivity.
Defined.

(** X11: whatever the collaborators raise ([YouTube(url)], the title, the
    streams, the download, ffmpeg, opening or sending the file,
    [os.remove]), the handler the table chooses returns a state: each
    handler catches every exception raised in it (the replies themselves
    taken not to raise), so the dispatcher's [error] is not reached. *)
Theorem handlers_catch_everything env u b cb :
  conv_handler.check_update (conv b) u = Some cb ->
  exists r,
    cb env u (world b) = (Ok r, world (handle_update env u b))
    /\ conv (handle_update env u b)
       = match r with Next s => Some s | END => None end.
Proof. apply handle_update_handled. Qed.

Lemma handlers_catch_everything_witness :
  exists r,
    download_audio (Demo.env_ffmpeg_fails [Demo.a_mp4]) (Demo.msg "/audio")
      (world (Demo.at_format [Demo.a_mp4]))
    = (Ok r, world (handle_update (Demo.env_ffmpeg_fails [Demo.a_mp4])
                      (Demo.msg "/audio") (Demo.at_format [Demo.a_mp4])))
    /\ conv (handle_update (Demo.env_ffmpeg_fails [Demo.a_mp4])
               (Demo.msg "/audio") (Demo.at_format [Demo.a_mp4]))
       = match r with Next s => Some s | END => None end.
Proof.
  apply (handlers_catch_everything (Demo.env_ffmpeg_fails [Demo.a_mp4])
           (Demo.msg "/audio") (Demo.at_format [Demo.a_mp4]) download_audio).
  reflexivity.
Defined.

(** ** While a resolution is awaited *)

Lemma download_video_result_state env u w yt q :
  video (user_data w) = Some yt ->
  streams (user_data w) = Some q ->
  q <> [] ->
  fst (download_video env u w)
  = Ok (Next (if delivers env u q then URL else RESOLUTION)).
Proof.
  intros Hv Hq Hne. unfold delivers.
  assert (Hq' : no_streams (streams (user_data w)) = false)
    by (rewrite Hq; destruct q; [now elim Hne | reflexivity]).
  destruct (resolution_of_command (text u)) as [[|a r]|] eqn:Hres;
    try (rewrite (download_video_invalid env u w yt); now auto).
  assert (Hr : String a r <> EmptyString) by discriminate.
  destruct (find_stream (String a r) q) as [s|] eqn:Hs.
  2: { rewrite (download_video_unknown env u w yt q (String a r)); auto. }
  destruct (over_50 (size_mb (filesize s))) eqn:Hbig; cbn [negb andb].
  { rewrite (download_video_too_large env u w yt q (String a r) s); auto. }
  destruct (fetch env s) as [path|e] eqn:Hf.
  2: { now rewrite (download_video_fetch_fails env u w yt q (String a r) s
                      Hv Hq Hres Hr Hs Hbig e Hf). }
  destruct (send_video env path) as [[]|e] eqn:Hsend.
  - now rewrite (download_video_success env u w yt q (String a r) s
                   Hv Hq Hres Hr Hs Hbig path Hf Hsend).
  - now rewrite (download_video_send_fails env u w yt q (String a r) s
                   Hv Hq Hres Hr Hs Hbig path e Hf Hsend).
Qed.

(** X12: while a resolution is awaited, the conversation goes on to [URL]
    exactly on a command that gets its video delivered; every other update
    (a message that is no command, [/cancel], [/start], a refused or failed
    download) leaves it waiting for a resolution. *)
Theorem resolution_state_exit env u b q :
  reachable b ->
  conv b = Some RESOLUTION ->
  streams (user_data (world b)) = Some q ->
  conv (handle_update env u b)
  = Some (if Telegram.Filters_command u && delivers env u q
          then URL else RESOLUTION).
Proof.
  intros Hb Hconv Hq. apply reachable_session_ok in Hb.
  unfold session_ok in Hb. rewrite Hconv in Hb. destruct Hb as [[yt Hv] Hne].
  destruct (Telegram.Filters_command u) eqn:Hcmd; cbn [andb].
  - pose proof (check_update_RESOLUTION_command u Hcmd) as Hcb.
    rewrite <- Hconv in Hcb.
    destruct (handle_update_handled env u b _ Hcb) as (r & E & ->).
    assert (Hq' : q <> []) by (rewrite Hq in Hne; now destruct q).
    pose proof (download_video_result_state env u (world b) yt q Hv Hq Hq') as Hr.
    rewrite E in Hr. cbn [fst] in Hr. injection Hr as ->. reflexivity.
  - unfold handle_update. rewrite Hconv.
    now rewrite (check_update_RESOLUTION_text u Hcmd).
Qed.

Lemma resolution_state_exit_witness :
  conv (handle_update (Demo.env_send_fails Demo.videos) (Demo.msg "/res_720p")
          (Demo.at_resolution Demo.videos))
  = Some (if Telegram.Filters_command (Demo.msg "/res_720p")
             && delivers (Demo.env_send_fails Demo.videos) (Demo.msg "/res_720p")
                  [Demo.v1080; Demo.v720]
          then URL else RESOLUTION).
Proof.
  apply (resolution_state_exit (Demo.env_send_fails Demo.videos)
           (Demo.msg "/res_720p") (Demo.at_resolution Demo.videos)
           [Demo.v1080; Demo.v720]).
  - apply reachable_run. constructor.
  - reflexivity.
  - reflexivity.
Defined.

(** X13: while a resolution is awaited, no update changes the session:
    the video and the catalog stay as [select_video] left them, whatever is
    sent and whatever the download does. *)
Theorem session_kept_while_resolution_awaited env u b :
  conv b = Some RESOLUTION ->
  user_data (world (handle_update env u b)) = user_data (world b).
Proof.
  intros Hconv.
  destruct (conv_handler.check_update (conv b) u) as [cb|] eqn:Hcb.
  - destruct (handle_update_handled env u b cb Hcb) as (r & E & _).
    rewrite Hconv in Hcb. apply check_update_RESOLUTION in Hcb as ->.
    destruct (download_video_returns env u (world b)) as (r' & w' & E' & Hud & _).
    congruence.
  - unfold handle_update. now rewrite Hcb.
Qed.

Lemma session_kept_while_resolution_awaited_witness :
  user_data (world (handle_update (Demo.env_ok Demo.videos) (Demo.msg "/res_720p")
                      (Demo.at_resolution Demo.videos)))
  = user_data (world (Demo.at_resolution Demo.videos)).
Proof.
  apply (session_kept_while_resolution_awaited (Demo.env_ok Demo.videos)
           (Demo.msg "/res_720p") (Demo.at_resolution Demo.videos)).
  reflexivity.
Defined.

(** ** The files in [downloads] *)

Lemma check_update_FORMAT_not_audio u cb :
  conv_handler.check_update (Some FORMAT) u = Some cb ->
  commands "audio" u = false ->
  cb = select_video \/ cb = cancel.
Proof.
  unfold commands, conv_handler.check_update, Telegram.first_match,
    conv_handler.states, conv_handler.fallbacks, Telegram.CommandHandler.
  cbn [List.find fst snd].
  intros H Ha. rewrite Ha in H.
  destruct (Telegram.accepts "video" u);
    [left; cbn in H; congruence|].
  destruct (Telegram.accepts "cancel" u);
    [right; cbn in H; congruence | discriminate].
Qed.

(** X14: only the download handlers touch [downloads]: outside a
    conversation, while a URL is awaited, and while a format is awaited
    unless the update is the audio command, an update leaves the files as
    they are; a file left behind by a failed send is not removed by
    [/cancel], [/start], a new URL or [/video]. *)
Theorem disk_kept_outside_downloads env u b :
  conv b <> Some RESOLUTION ->
  (conv b = Some FORMAT -> commands "audio" u = false) ->
  disk (world (handle_update env u b)) = disk (world b).
Proof.
  intros Hres Haudio.
  destruct (conv_handler.check_update (conv b) u) as [cb|] eqn:Hcb.
  2: { unfold handle_update. now rewrite Hcb. }
  destruct (handle_update_handled env u b cb Hcb) as (r & E & _).
  revert E. generalize (world (handle_update env u b)). intros w' E.
  destruct (conv b) as [[| |]|] eqn:Hconv; [| |congruence|].
  - apply check_update_URL in Hcb as [-> | ->].
    + destruct (receive_url_returns env u (world b)) as (? & ? & E' & Hd & _).
      congruence.
    + rewrite cancel_runs in E. now injection E as _ <-.
  - apply check_update_FORMAT_not_audio in Hcb as [-> | ->]; auto.
    + destruct (select_video_returns env u (world b)) as (? & ? & E' & Hd & _).
      congruence.
    + rewrite cancel_runs in E. now injection E as _ <-.
  - apply check_update_outside in Hcb as ->.
    rewrite start_runs in E. now injection E as _ <-.
Qed.

Lemma disk_kept_outside_downloads_witness :
  disk (world (handle_update (Demo.env_ok Demo.videos) (Demo.msg "/video")
                 (Demo.at_format Demo.videos)))
  = disk (world (Demo.at_format Demo.videos)).
Proof.
  apply (disk_kept_outside_downloads (Demo.env_ok Demo.videos)
           (Demo.msg "/video") (Demo.at_format Demo.videos)).
  - discriminate.
  - reflexivity.
Defined.

(** X15: when the download and the send succeed, [download_video] leaves
    no file behind: the downloaded path is not in [downloads] afterwards, and
    nothing is there that was not there before. *)
Theorem delivered_video_leaves_no_file env u w yt q res s path :
  video (user_data w) = Some yt ->
  streams (user_data w) = Some q ->
  resolution_of_command (text u) = Some res ->
  res <> EmptyString ->
  find_stream res q = Some s ->
  over_50 (size_mb (filesize s)) = false ->
  fetch env s = Ok path ->
  send_video env path = Ok tt ->
  fst (download_video env u w) = Ok (Next URL)
  /\ (path ∉ disk (snd (download_video env u w)))
  /\ (disk (snd (download_video env u w)) ⊆ disk w).
Proof.
  intros Hv Hq Hres Hne Hs Hsmall Hf Hsend.
  rewrite (download_video_success env u w yt q res s Hv Hq Hres Hne Hs Hsmall
             path Hf Hsend).
  cbn [fst snd after disk]. split; [reflexivity | split; set_solver].
Qed.

Lemma delivered_video_leaves_no_file_witness :
  fst (download_video (Demo.env_ok Demo.videos) (Demo.msg "/res_720p")
         (world (Demo.at_resolution Demo.videos))) = Ok (Next URL)
  /\ ("downloads/clip.mp4"
        ∉ disk (snd (download_video (Demo.env_ok Demo.videos) (Demo.msg "/res_720p")
                       (world (Demo.at_resolution Demo.videos)))))
  /\ (disk (snd (download_video (Demo.env_ok Demo.videos) (Demo.msg "/res_720p")
                   (world (Demo.at_resolution Demo.videos))))
        ⊆ disk (world (Demo.at_resolution Demo.videos))).
Proof.
  apply (delivered_video_leaves_no_file (Demo.env_ok Demo.videos)
           (Demo.msg "/res_720p") (world (Demo.at_resolution Demo.videos))
           (Demo.media Demo.videos) [Demo.v1080; Demo.v720] "720p" Demo.v720);
    try reflexivity.
  discriminate.
Defined.

(** X16: when the download, the conversion and the send succeed,
    [download_audio] leaves no file behind, whether the MP3 path is another
    path than the raw one or the same: neither path is in [downloads]
    afterwards, and nothing is there that was not there before. *)
Theorem delivered_audio_leaves_no_file env u w yt all s path :
  video (user_data w) = Some yt ->
  streams_of yt = Ok all ->
  first (List.filter only_audio all) = Some s ->
  fetch env s = Ok path ->
  over_50 (size_mb (filesize s)) = false ->
  ffmpeg_run env path (mp3_path_of path) = Ok tt ->
  send_audio env (mp3_path_of path) = Ok tt ->
  fst (download_audio env u w) = Ok (Next URL)
  /\ (path ∉ disk (snd (download_audio env u w)))
  /\ (mp3_path_of path ∉ disk (snd (download_audio env u w)))
  /\ (disk (snd (download_audio env u w)) ⊆ disk w).
Proof.
  intros Hv Hall Hs Hf Hsmall Hff Hsend.
  destruct (decide (mp3_path_of path = path)) as [Heq|Hne].
  - rewrite (download_audio_same_path env u w yt all s path
               Hv Hall Hs Hf Hsmall Hff Hsend Heq).
    rewrite Heq. cbn [fst snd after disk].
    split; [reflexivity | repeat split; set_solver].
  - rewrite (download_audio_success env u w yt all s path
               Hv Hall Hs Hf Hsmall Hff Hsend Hne).
    cbn [fst snd after disk].
    split; [reflexivity | repeat split; set_solver].
Qed.

Lemma delivered_audio_leaves_no_file_witness :
  fst (download_audio (Demo.env_ok [Demo.a_mp4]) (Demo.msg "/audio")
         (world (Demo.at_format [Demo.a_mp4]))) = Ok (Next URL)
  /\ ("downloads/clip.mp4"
        ∉ disk (snd (download_audio (Demo.env_ok [Demo.a_mp4]) (Demo.msg "/audio")
                       (world (Demo.at_format [Demo.a_mp4])))))
  /\ (mp3_path_of "downloads/clip.mp4"
        ∉ disk (snd (download_audio (Demo.env_ok [Demo.a_mp4]) (Demo.msg "/audio")
                       (world (Demo.at_format [Demo.a_mp4])))))
  /\ (disk (snd (download_audio (Demo.env_ok [Demo.a_mp4]) (Demo.msg "/audio")
                   (world (Demo.at_format [Demo.a_mp4]))))
        ⊆ disk (world (Demo.at_format [Demo.a_mp4]))).
Proof.
  apply (delivered_audio_leaves_no_file (Demo.env_ok [Demo.a_mp4])
           (Demo.msg "/audio") (world (Demo.at_format [Demo.a_mp4]))
           (Demo.media [Demo.a_mp4]) [Demo.a_mp4] Demo.a_mp4);
    reflexivity.
Defined.

(** X17: [download_audio] sends one reply, returns [URL] and leaves the
    session as it was when the streams cannot be read, when the video has no
    audio-only stream, and when the download raises.  In the first two cases
    the disk is as it was; in the third, what the download wrote before it
    raised stays on disk: the handler removes nothing. *)
Theorem download_audio_fails_early env u w yt :
  video (user_data w) = Some yt ->
  (forall e, streams_of yt = Raise e ->
             download_audio env u w
             = (Ok (Next URL), after w (disk w) [ReplyText (ErrProcessingAudio e)]))
  /\ (forall all, streams_of yt = Ok all ->
                  first (List.filter only_audio all) = None ->
                  download_audio env u w
                  = (Ok (Next URL), after w (disk w) [ReplyText NoAudioStream]))
  /\ (forall all s e, streams_of yt = Ok all ->
                      first (List.filter only_audio all) = Some s ->
                      fetch env s = Raise e ->
                      download_audio env u w
                      = (Ok (Next URL),
                         after w (disk w ∪ leftover env s)
                           [ReplyText (ErrProcessingAudio e)])).
Proof.
  intros Hv. unfold download_audio. unfold_m. rewrite Hv.
  split; [|split].
  - intros e ->. reflexivity.
  - intros all -> ->. reflexivity.
  - intros all s e -> -> ->. reflexivity.
Qed.

Lemma download_audio_fails_early_witness :
  download_audio (Demo.env_ok Demo.videos) (Demo.msg "/audio")
    (world (Demo.at_format Demo.videos))
  = (Ok (Next URL),
     after (world (Demo.at_format Demo.videos))
       (disk (world (Demo.at_format Demo.videos))) [ReplyText NoAudioStream])
  /\ download_audio (Demo.env_fetch_fails [Demo.a_mp4]) (Demo.msg "/audio")
       (world (Demo.at_format [Demo.a_mp4]))
     = (Ok (Next URL),
        after (world (Demo.at_format [Demo.a_mp4]))
          (disk (world (Demo.at_format [Demo.a_mp4]))
             ∪ leftover (Demo.env_fetch_fails [Demo.a_mp4]) Demo.a_mp4)
          [ReplyText (ErrProcessingAudio (Failure "connection reset"))]).
Proof.
  split.
  - apply (proj1 (proj2 (download_audio_fails_early (Demo.env_ok Demo.videos)
                           (Demo.msg "/audio") (world (Demo.at_format Demo.videos))
                           (Demo.media Demo.videos) eq_refl))
             Demo.videos); reflexivity.
  - apply (proj2 (proj2 (download_audio_fails_early
                           (Demo.env_fetch_fails [Demo.a_mp4])
                           (Demo.msg "/audio") (world (Demo.at_format [Demo.a_mp4]))
                           (Demo.media [Demo.a_mp4]) eq_refl))
             [Demo.a_mp4] Demo.a_mp4); reflexivity.
Defined.

Example interrupted_download_leaves_file :
  let b := handle_update (Demo.env_fetch_fails [Demo.a_mp4]) (Demo.msg "/audio")
             (Demo.at_format [Demo.a_mp4]) in
  conv b = Some URL /\ elements (disk (world b)) = ["downloads/clip.mp4"].
Proof. split; reflexivity. Qed.

(** ** The guards on the session *)

Ltac no_guard_reply :=
  cbn [snd outbox]; rewrite <- ?app_assoc; cbn [app];
  eexists; split; reflexivity.

Lemma start_quiet env u w :
  exists evs, outbox (snd (start env u w)) = (outbox w ++ evs)%list
              /\ forallb (fun ev => negb (guard_reply ev)) evs = true.
Proof. unfold start. unfold_m. no_guard_reply. Qed.

Lemma cancel_quiet env u w :
  exists evs, outbox (snd (cancel env u w)) = (outbox w ++ evs)%list
              /\ forallb (fun ev => negb (guard_reply ev)) evs = true.
Proof. unfold cancel. unfold_m. no_guard_reply. Qed.

Lemma receive_url_quiet env u w :
  exists evs, outbox (snd (receive_url env u w)) = (outbox w ++ evs)%list
              /\ forallb (fun ev => negb (guard_reply ev)) evs = true.
Proof. unfold receive_url. split_cases; no_guard_reply. Qed.

Lemma select_video_quiet env u w :
  is_Some (video (user_data w)) ->
  exists evs, outbox (snd (select_video env u w)) = (outbox w ++ evs)%list
              /\ forallb (fun ev => negb (guard_reply ev)) evs = true.
Proof.
  intros [yt Hv]. unfold select_video. unfold_m. rewrite Hv.
  split_cases; no_guard_reply.
Qed.

Lemma download_audio_quiet env u w :
  is_Some (video (user_data w)) ->
  exists evs, outbox (snd (download_audio env u w)) = (outbox w ++ evs)%list
              /\ forallb (fun ev => negb (guard_reply ev)) evs = true.
Proof.
  intros [yt Hv]. unfold download_audio. unfold_m. rewrite Hv.
  split_cases; no_guard_reply.
Qed.

Lemma download_video_quiet env u w :
  is_Some (video (user_data w)) ->
  no_streams (streams (user_data w)) = false ->
  exists evs, outbox (snd (download_video env u w)) = (outbox w ++ evs)%list
              /\ forallb (fun ev => negb (guard_reply ev)) evs = true.
Proof.
  intros [yt Hv] Hq. unfold download_video. unfold_m. rewrite Hv, Hq.
  split_cases; no_guard_reply.
Qed.

Lemma handle_update_quiet env u b :
  session_ok b ->
  exists evs,
    outbox (world (handle_update env u b)) = (outbox (world b) ++ evs)%list
    /\ forallb (fun ev => negb (guard_reply ev)) evs = true.
Proof.
  intros Hok.
  destruct (conv_handler.check_update (conv b) u) as [cb|] eqn:Hcb.
  2: { unfold handle_update. rewrite Hcb. exists []. now rewrite app_nil_r. }
  destruct (handle_update_handled env u b cb Hcb) as (r & E & _).
  assert (Hw : world (handle_update env u b) = snd (cb env u (world b)))
    by now rewrite E.
  rewrite Hw. clear E Hw. unfold session_ok in Hok.
  destruct (conv b) as [[| |]|].
  - apply check_update_URL in Hcb as [-> | ->];
      [apply receive_url_quiet | apply cancel_quiet].
  - apply check_update_FORMAT in Hcb as [-> | [-> | ->]];
      [now apply select_video_quiet | now apply download_audio_quiet
      | apply cancel_quiet].
  - apply check_update_RESOLUTION in Hcb as ->.
    destruct Hok. now apply download_video_quiet.
  - apply check_update_outside in Hcb as ->. apply start_quiet.
Qed.

(** ** The catalog and the video *)

Lemma select_video_sets_catalog env u w w' :
  select_video env u w = (Ok (Next RESOLUTION), w') ->
  exists yt all,
    video (user_data w') = Some yt
    /\ streams_of yt = Ok all
    /\ streams (user_data w') = Some (catalog_of all)
    /\ catalog_of all <> [].
Proof.
  unfold select_video. unfold_m.
  destruct (video (user_data w)) as [yt|] eqn:Hv; [|discriminate].
  destruct (streams_of yt) as [all|e] eqn:Hall; [|discriminate].
  destruct (catalog_of all) as [|s q] eqn:Hcat; [discriminate|].
  destruct (read_sizes env (s :: q)); [|discriminate].
  intros [= <-]. exists yt, all. cbn [user_data video streams].
  rewrite Hcat.
  split; [exact Hv|split; [exact Hall|split; [reflexivity|discriminate]]].
Qed.

Lemma handle_update_catalog_is_current env u b :
  catalog_is_current b -> catalog_is_current (handle_update env u b).
Proof.
  intros Hb Hconv'.
  destruct (conv_handler.check_update (conv b) u) as [cb|] eqn:Hcb.
  2: { unfold handle_update in *. rewrite Hcb in *. now apply Hb. }
  destruct (handle_update_handled env u b cb Hcb) as (r & E & Hconv).
  rewrite Hconv in Hconv'. destruct r as [[| |]|]; try discriminate.
  revert E. generalize (world (handle_update env u b)). intros w' E.
  destruct (conv b) as [[| |]|] eqn:Hc.
  - apply check_update_URL in Hcb as [-> | ->].
    + destruct (receive_url_returns env u (world b))
        as (r & w'' & E' & _ & [-> | [-> _]]); congruence.
    + rewrite cancel_runs in E. discriminate.
  - apply check_update_FORMAT in Hcb as [-> | [-> | ->]].
    + now apply (select_video_sets_catalog env u (world b)).
    + destruct (download_audio_returns env u (world b)) as (w'' & E' & _).
      congruence.
    + rewrite cancel_runs in E. discriminate.
  - apply check_update_RESOLUTION in Hcb as ->.
    destruct (download_video_returns env u (world b))
      as (r & w'' & E' & Hud & _).
    assert (w'' = w') by congruence. subst w''. rewrite Hud. now apply Hb.
  - apply check_update_outside in Hcb as ->.
    rewrite start_runs in E. discriminate.
Qed.

(** * A user in several chats *)

(** ** What an update does to the session *)





(** ** The conversations of a user *)

Lemma conversation_process_update env u st :
  conversation (chat u) (process_update env u st)
  = handle_update env u (conversation (chat u) st).
Proof.
  unfold process_update, conversation at 1. cbn [chats shared].
  destruct (handle_update env u (conversation (chat u) st)) as [[s|] w];
    cbn [conv world update_state];
    now rewrite ?lookup_insert_eq, ?lookup_delete_eq.
Qed.

Lemma chats_process_update_ne env u st c :
  c <> chat u -> chats (process_update env u st) !! c = chats st !! c.
Proof.
  intros Hne. unfold process_update. cbn [chats].
  destruct (conv (handle_update env u (conversation (chat u) st)));
    cbn [update_state];
    [apply lookup_insert_ne | apply lookup_delete_ne]; congruence.
Qed.

Lemma reachable_in_run used inputs st :
  Forall (fun i => used (chat (snd i))) inputs ->
  reachable_in used st -> reachable_in used (user_run inputs st).
Proof.
  intros H. revert st. induction H as [|[env u] inputs Hu _ IH]; intros st Hst.
  - exact Hst.
  - apply IH. now constructor.
Qed.


(** A property of one conversation that every update keeps and that does
    not depend on the disk holds as long as the user talks to the bot in
    one chat only. *)
Lemma one_chat_invariant (P : Bot -> Prop) c :
  P initial ->
  (forall env u b, P b -> P (handle_update env u b)) ->
  (forall d b, P b ->
     P {| conv := conv b;
          world := {| user_data := user_data (world b); disk := d;
                      outbox := outbox (world b) |} |}) ->
  forall st, reachable_in (eq c) st -> P (conversation c st).
Proof.
  intros Hinit Hstep Hdisk st H.
  induction H as [|env u st Hu Hst IH|d st Hst IH].
  - unfold conversation, user_initial. cbn [chats shared].
    now rewrite lookup_empty.
  - subst c. rewrite conversation_process_update. now apply Hstep.
  - apply (Hdisk d) in IH. exact IH.
Qed.

Lemma one_chat_others_idle c st :
  reachable_in (eq c) st -> forall c', c' <> c -> chats st !! c' = None.
Proof.
  induction 1 as [|env u st Hu Hst IH|d st Hst IH]; intros c' Hne.
  - apply lookup_empty.
  - subst c. rewrite chats_process_update_ne by exact Hne. now apply IH.
  - now apply IH.
Qed.


Lemma one_chat_quiet c st :
  reachable_in (eq c) st ->
  session_ok (conversation c st)
  /\ forall ev, In ev (outbox (world (conversation c st))) -> guard_reply ev = false.
Proof.
  apply (one_chat_invariant
           (fun b => session_ok b
                     /\ forall ev, In ev (outbox (world b)) -> guard_reply ev = false)).
  - split; [reflexivity | intros ev []].
  - intros env u b [Hok Hq]. split; [now apply handle_update_session_ok|].
    destruct (handle_update_quiet env u b Hok) as (evs & E & Hevs).
    intros ev Hin. rewrite E in Hin.
    apply in_app_or in Hin as [Hin | Hin]; [now apply Hq|].
    rewrite forallb_forall in Hevs. apply Hevs in Hin.
    now apply negb_true_iff in Hin.
  - intros d b H. exact H.
Qed.

(** ** The session and the states of the conversations *)

Example user_at_resolution_state :
  chats Demo.user_at_resolution !! 1%Z = Some RESOLUTION
  /\ chats Demo.user_delivered !! 1%Z = Some URL
  /\ chats Demo.user_second_url !! 1%Z = Some FORMAT
  /\ chats Demo.emptied !! 1%Z = Some RESOLUTION
  /\ chats Demo.emptied !! 2%Z = None.
Proof. repeat split. Qed.



(** ** Resolution commands and the session *)

Lemma download_video_guard env u w :
  video (user_data w) = None \/ no_streams (streams (user_data w)) = true ->
  download_video env u w
  = (Ok (Next URL), after w (disk w) [ReplyText NoVideoOrStreams]).
Proof.
  intros H. unfold download_video. unfold_m.
  destruct (video (user_data w)); [|reflexivity].
  destruct H as [H | ->]; [discriminate | reflexivity].
Qed.

(** A resolution is awaited in the chat 1 and the user has cancelled in the
    chat 2: the command [/help], without an underscore, is answered by the
    guard of [download_video], and the conversation goes back to [URL]. *)
Lemma guidance_counterexample :
  reachable_in any_chat Demo.emptied
  /\ chats Demo.emptied !! 1%Z = Some RESOLUTION
  /\ Telegram.Filters_command (Demo.msg "/help") = true
  /\ PyStr.contains_char "_" (text (Demo.msg "/help")) = false
  /\ chats (process_update (Demo.env_ok Demo.videos) (Demo.msg "/help") Demo.emptied)
       !! 1%Z = Some URL
  /\ last (outbox (shared (process_update (Demo.env_ok Demo.videos)
                             (Demo.msg "/help") Demo.emptied)))
     = Some (ReplyText NoVideoOrStreams)
  /\ ReplyText NoVideoOrStreams <> ReplyText InvalidResolutionCommand.
Proof.
  split; [|repeat split; discriminate].
  apply reachable_in_run; [|constructor].
  repeat constructor.
Qed.

(** C9, as the code has it: while a resolution is awaited, with the video
    and a non-empty catalog in the session, the tag of a command is what
    follows its last underscore, whatever stands before it, and that tag is
    what [download_video] looks up in the catalog: an unknown tag is
    answered as such, a known one has its stream checked, fetched, sent and
    removed ([/foo_720p] gets the 720p stream); a command without an
    underscore gets the guidance on resolution commands as its one reply
    and leaves the conversation waiting for a resolution.  With the video or
    the catalog missing from the session, every command is answered by the
    guard instead and the conversation goes back to [URL]. *)
Theorem resolution_tag_parsing :
  (forall pre tag,
      PyStr.contains_char "_" tag = false ->
      resolution_of_command (pre +:+ String "_" tag) = Some tag)
  /\ (forall env u w yt q pre tag,
        video (user_data w) = Some yt ->
        streams (user_data w) = Some q ->
        q <> [] ->
        text u = pre +:+ String "_" tag ->
        PyStr.contains_char "_" tag = false ->
        tag <> EmptyString ->
        match find_stream tag q with
        | None =>
            download_video env u w
            = (Ok (Next RESOLUTION), after w (disk w) [ReplyText (NoStreamFound tag)])
        | Some s =>
            if over_50 (size_mb (filesize s))
            then download_video env u w
                 = (Ok (Next RESOLUTION),
                    after w (disk w)
                      [ReplyText (VideoTooLarge (size_mb (filesize s)))])
            else forall path,
                fetch env s = Ok path ->
                send_video env path = Ok tt ->
                download_video env u w
                = (Ok (Next URL),
                   after w ((disk w ∪ {[path]}) ∖ {[path]})
                     [Fetched s path; ReplyText (DownloadedSending tag);
                      SentVideo path; Removed path; ReplyText Done])
        end)
  /\ (let b := handle_update (Demo.env_ok Demo.videos) (Demo.msg "/foo_720p")
                 (Demo.at_resolution Demo.videos) in
      conv b = Some URL
      /\ In (Fetched Demo.v720 "downloads/clip.mp4") (outbox (world b))
      /\ In (SentVideo "downloads/clip.mp4") (outbox (world b)))
  /\ (forall env u b yt,
        conv b = Some RESOLUTION ->
        video (user_data (world b)) = Some yt ->
        no_streams (streams (user_data (world b))) = false ->
        Telegram.Filters_command u = true ->
        PyStr.contains_char "_" (text u) = false ->
        handle_update env u b
        = {| conv := Some RESOLUTION;
             world := after (world b) (disk (world b))
                        [ReplyText InvalidResolutionCommand] |})
  /\ (forall env u b,
        conv b = Some RESOLUTION ->
        video (user_data (world b)) = None
        \/ no_streams (streams (user_data (world b))) = true ->
        Telegram.Filters_command u = true ->
        handle_update env u b
        = {| conv := Some URL;
             world := after (world b) (disk (world b))
                        [ReplyText NoVideoOrStreams] |}).
Proof.
  split; [apply resolution_of_command_last|].
  split; [|split; [|split]].
  - intros env u w yt q pre tag Hv Hq Hne Htext Htag Hnonempty.
    assert (Hres : resolution_of_command (text u) = Some tag)
      by (rewrite Htext; now apply resolution_of_command_last).
    destruct (find_stream tag q) as [s|] eqn:Hs.
    + destruct (over_50 (size_mb (filesize s))) eqn:Hbig.
      * now apply (download_video_too_large env u w yt q tag s).
      * intros path Hf Hsend.
        now apply (download_video_success env u w yt q tag s).
    + now apply (download_video_unknown env u w yt q tag).
  - vm_compute. repeat split; repeat first [left; reflexivity | right].
  - intros env u b yt Hconv Hv Hq Hcmd Hno.
    apply command_without_underscore; try assumption.
    unfold session_ok. rewrite Hconv. eauto.
  - intros env u b Hconv Hempty Hcmd. unfold handle_update. rewrite Hconv.
    rewrite (check_update_RESOLUTION_command u Hcmd).
    now rewrite (download_video_guard env u (world b) Hempty).
Qed.

Lemma resolution_tag_parsing_witness :
  resolution_of_command ("/res_best" +:+ String "_" "1080p") = Some "1080p"
  /\ download_video (Demo.env_ok Demo.videos) (Demo.msg "/foo_720p")
       (world (Demo.at_resolution Demo.videos))
     = (Ok (Next URL),
        after (world (Demo.at_resolution Demo.videos))
          ((disk (world (Demo.at_resolution Demo.videos))
              ∪ {["downloads/clip.mp4"]}) ∖ {["downloads/clip.mp4"]})
          [Fetched Demo.v720 "downloads/clip.mp4";
           ReplyText (DownloadedSending "720p");
           SentVideo "downloads/clip.mp4"; Removed "downloads/clip.mp4";
           ReplyText Done])
  /\ handle_update (Demo.env_ok Demo.videos) (Demo.msg "/help")
       (Demo.at_resolution Demo.videos)
     = {| conv := Some RESOLUTION;
          world := after (world (Demo.at_resolution Demo.videos))
                     (disk (world (Demo.at_resolution Demo.videos)))
                     [ReplyText InvalidResolutionCommand] |}
  /\ handle_update (Demo.env_ok Demo.videos) (Demo.msg "/help")
       (conversation 1 Demo.emptied)
     = {| conv := Some URL;
          world := after (shared Demo.emptied) (disk (shared Demo.emptied))
                     [ReplyText NoVideoOrStreams] |}.
Proof.
  split; [|split; [|split]].
  - apply (proj1 resolution_tag_parsing "/res_best" "1080p"). reflexivity.
  - assert (Hne : [Demo.v1080; Demo.v720] <> []) by discriminate.
    assert (Htag : "720p" <> EmptyString) by discriminate.
    pose proof (proj1 (proj2 resolution_tag_parsing) (Demo.env_ok Demo.videos)
                  (Demo.msg "/foo_720p") (world (Demo.at_resolution Demo.videos))
                  (Demo.media Demo.videos) [Demo.v1080; Demo.v720] "/foo" "720p"
                  eq_refl eq_refl Hne eq_refl eq_refl Htag) as H.
    assert (Hfind : find_stream "720p" [Demo.v1080; Demo.v720] = Some Demo.v720)
      by reflexivity.
    rewrite Hfind in H.
    assert (Hsize : over_50 (size_mb (filesize Demo.v720)) = false) by reflexivity.
    rewrite Hsize in H.
    apply (H "downloads/clip.mp4"); reflexivity.
  - apply (proj1 (proj2 (proj2 (proj2 resolution_tag_parsing)))
             (Demo.env_ok Demo.videos) (Demo.msg "/help")
             (Demo.at_resolution Demo.videos) (Demo.media Demo.videos));
      reflexivity.
  - apply (proj2 (proj2 (proj2 (proj2 resolution_tag_parsing)))
             (Demo.env_ok Demo.videos) (Demo.msg "/help")
             (conversation 1 Demo.emptied)).
    + reflexivity.
    + left. reflexivity.
    + reflexivity.
Defined.

(** ** The guards and the catalog in one chat *)

(** X18: as long as the user talks to the bot in one chat only, the guards
    of the handlers on a missing video or catalog never fire: whatever the
    user sends there and whatever the collaborators do, the bot never
    replies that no video is selected or that no video or streams are
    selected.  (They do fire after a [/cancel] of the same user in another
    chat.) *)
Theorem guards_never_fire c st :
  reachable_in (eq c) st ->
  forall ev, In ev (outbox (shared st)) -> guard_reply ev = false.
Proof.
  intros H. apply (one_chat_quiet c st H).
Qed.

Lemma guards_never_fire_witness :
  In (ReplyText Done) (outbox (shared Demo.user_delivered))
  /\ guard_reply (ReplyText Done) = false.
Proof.
  assert (Hin : In (ReplyText Done) (outbox (shared Demo.user_delivered)))
    by (vm_compute; repeat first [left; reflexivity | right]).
  split; [exact Hin|].
  apply (guards_never_fire 1%Z Demo.user_delivered); [|exact Hin].
  apply reachable_in_run; [repeat constructor | constructor].
Defined.

Example guard_fires_across_chats :
  guard_reply
    (default (ReplyText Done)
       (last (outbox (shared (process_update (Demo.env_ok Demo.videos)
                                (Demo.msg "/res_720p") Demo.emptied)))))
  = true.
Proof. reflexivity. Qed.

(** X19: as long as the user talks to the bot in one chat only, while a
    resolution is awaited the catalog in the session is the catalog of the
    video in the session, and it is not empty: the session is never cleared
    after a delivery, yet a resolution command is not looked up in the
    catalog of an earlier video. *)
Theorem catalog_belongs_to_video c st :
  reachable_in (eq c) st ->
  chats st !! c = Some RESOLUTION ->
  exists yt all,
    video (user_data (shared st)) = Some yt
    /\ streams_of yt = Ok all
    /\ streams (user_data (shared st)) = Some (catalog_of all)
    /\ catalog_of all <> [].
Proof.
  intros H. revert st H.
  apply (one_chat_invariant catalog_is_current c).
  - intros E. discriminate E.
  - intros env u b. apply handle_update_catalog_is_current.
  - intros d b Hb. exact Hb.
Qed.

Lemma catalog_belongs_to_video_witness :
  exists yt all,
    video (user_data (shared Demo.user_at_resolution)) = Some yt
    /\ streams_of yt = Ok all
    /\ streams (user_data (shared Demo.user_at_resolution))
       = Some (catalog_of all)
    /\ catalog_of all <> [].
Proof.
  apply (catalog_belongs_to_video 1%Z Demo.user_at_resolution).
  - apply reachable_in_run; [repeat constructor | constructor].
  - reflexivity.
Defined.

(** ** Commands addressed to a bot *)

Example cancel_for_another_bot_is_unanswered :
  commands "cancel" (Demo.msg "/cancel@otherbot") = false
  /\ commands "cancel" (Demo.msg "/cancel@ClipBot") = true
  /\ unanswered (Some FORMAT) (Demo.msg "/cancel@otherbot") = true
  /\ handle_update (Demo.env_ok Demo.videos) (Demo.msg "/cancel@otherbot")
       (Demo.at_format Demo.videos)
     = Demo.at_format Demo.videos.
Proof. repeat split. Qed.
